(** * rosbag_to_csv: the data recorder node

    A shallow embedding of [src/rosbag_to_csv/data_recorder_node.py] and the
    properties of its sampling, caching and export paths.

    The node keeps the latest message of every subscribed topic in a
    dictionary, builds one row from that dictionary on every timer tick, and
    writes the accumulated rows through [csv.DictWriter] on shutdown.

    Every method body runs either under [self.data_lock] or on the single
    executor thread, so the methods are modelled as atomic steps on the
    node's state; an execution is a sequence of such steps.

    What the code takes from its environment is a parameter of the
    development: the lookup of a message type, the attributes Python's
    built-in types give to a value, and the outcomes of opening, writing and
    closing the output file. *)

From Stdlib Require Import ZArith QArith String Ascii List.
From stdpp Require Import base option list strings gmap.

Close Scope Q_scope.

#[local] Set Warnings "-register-all,-clear-no-such-hyp".

(** ** Python values *)

Module Py.

(** A Python value: a scalar, or an object with named fields (a message,
    and any other object an attribute lookup can yield).  The attributes an
    object has besides its fields are given by the environment. *)
Inductive value :=
| VNone
| VBool (b : bool)
| VInt (z : Z)
| VFloat (q : Q)
| VStr (s : string)
| VMsg (slots : list (string * value)).

Inductive exception :=
| AttributeError
| ValueError
| OtherError (cls : string).

(** [x is not None] *)
Definition is_not_None (v : value) : bool :=
  match v with VNone => false | _ => true end.

(** [s.split(sep)] for a one-character separator: every occurrence of the
    separator cuts, so the result has one more piece than [s] has
    separators, and pieces may be empty. *)
Fixpoint split (sep : ascii) (s : string) : list string :=
  match s with
  | EmptyString => [""]
  | String c rest =>
      if Ascii.eqb c sep then "" :: split sep rest
      else match split sep rest with
           | piece :: pieces => String c piece :: pieces
           | [] => [String c ""]
           end
  end.

(** First binding of [attr] in the slots of an object. *)
Fixpoint find_slot (attr : string) (slots : list (string * value)) : option value :=
  match slots with
  | [] => None
  | (k, v) :: rest => if String.eqb k attr then Some v else find_slot attr rest
  end.

End Py.
Export Py.

(** ** Effects

    What a method does to the outside world: log records, calls into rclpy
    and the rows handed to the CSV writer.  A computation yields the effects
    it performed, in order, and then either returns or raises.

    [CreateSubscription] and [CreateTimer] record the calls
    [self.create_subscription(...)] and [self.create_timer(...)] with their
    arguments; what rclpy does with them is outside the node's code.
    [OpenForWriting] records that [open(path, 'w')] returned, and
    [WriteRow] the cells [DictWriter] passed to [csv.writer], which renders
    each cell as text ([None] as the empty field, anything else with
    [str]). *)

Inductive severity := ERROR | INFO.

(** The pieces of an f-string: literal text and formatted values. *)
Inductive fragment :=
| Lit (s : string)
| Fmt (v : value).

Inductive msg_class := MsgClass (type_name : string).

Inductive effect :=
| Log (level : severity) (text : list fragment)
| CreateSubscription (cls : msg_class) (topic : string) (depth : nat)
| CreateTimer (period : Q)
| OpenForWriting (path : string)
| WriteRow (cells : list value).

Inductive result (A : Type) :=
| Returned (a : A)
| Raised (e : exception).
Arguments Returned {A} a.
Arguments Raised {A} e.

Definition Run (A : Type) : Type := list effect * result A.

Definition effects {A} (c : Run A) : list effect := fst c.
Definition outcome {A} (c : Run A) : result A := snd c.

#[global] Instance Run_ret : MRet Run := fun A a => ([], Returned a).

#[global] Instance Run_bind : MBind Run := fun A B k c =>
  match c with
  | (es, Returned a) => let '(es', r) := k a in (es ++ es', r)
  | (es, Raised e) => (es, Raised e)
  end.

Definition perform (e : effect) : Run unit := ([e], Returned tt).
Definition raise {A} (e : exception) : Run A := ([], Raised e).
Definition lift {A} (r : result A) : Run A := ([], r).

(** [try: body / except AttributeError: handler] *)
Definition try_except_AttributeError {A} (body handler : Run A) : Run A :=
  match body with
  | (es, Raised AttributeError) => let '(es', r) := handler in (es ++ es', r)
  | other => other
  end.

(** [for x in xs: s = body(s, x)] *)
Fixpoint for_each {S A} (body : S -> A -> Run S) (xs : list A) (s : S) : Run S :=
  match xs with
  | [] => mret s
  | x :: rest => s' ← body s x; for_each body rest s'
  end.

(** ** The environment

    Two things the node's code relies on without defining them. *)

(** The attributes Python gives an object besides its own fields: the data
    attributes and methods of the built-in types ([int.real],
    [str.upper], ...) and what every object inherits ([__class__],
    [__doc__], ...).  [None] is the case in which the lookup raises
    [AttributeError]. *)
Class Builtins := builtin_attr : value -> string -> option value.

(** The outcomes of the file operations of the export, by path:
    [open(path, 'w')] returns once the file is created or truncated, or
    raises ([FileNotFoundError], [PermissionError], ...); handing a row to
    the writer of the open file, and closing the file at the end of the
    [with] block (which flushes it), return or raise [OSError]. *)
Class FileSystem := {
  open_w : string -> result unit;
  write_w : string -> list value -> result unit;
  close_w : string -> result unit
}.

(** Every subscription of a concrete configuration resolves. *)
Ltac each_subscription Hsub :=
  repeat (apply elem_of_cons in Hsub as [->|Hsub]; [vm_compute; eauto|]);
  by apply elem_of_nil in Hsub.

(** A path of a concrete file system can be written. *)
Ltac file_is_writable := split; [reflexivity | split; [intros; reflexivity | reflexivity]].

Section Node.

Context `{!Builtins, !FileSystem}.

(** ** Field extraction *)

(** The fields of a message, as a lookup. *)
Definition own_attr (v : value) (attr : string) : option value :=
  match v with
  | VMsg slots => find_slot attr slots
  | _ => None
  end.

(** [getattr(value, attr)]: a field of the message, else a built-in
    attribute, else [AttributeError]. *)
Definition getattr (v : value) (attr : string) : Run value :=
  match own_attr v attr with
  | Some x => mret x
  | None =>
      match builtin_attr v attr with
      | Some x => mret x
      | None => raise AttributeError
      end
  end.

(** The body of the [try]: walk the attributes, then [return value]. *)
Definition walk (msg : value) (attrs : list string) : Run value :=
  for_each getattr attrs msg.

Definition get_field_value (msg : value) (field_path : string) : Run value :=
  let attrs := split "." field_path in
  try_except_AttributeError
    (walk msg attrs)
    (perform (Log ERROR [Lit "Could not get field '"; Lit field_path;
                         Lit "' from message on topic '"; Fmt msg; Lit "'"]);;
     mret VNone).

(** ** The node *)

(** One entry of [config['subscriptions'][i]['fields']]. *)
Record field_config := {
  cfg_name : string;
  cfg_field_path : string
}.

(** One entry of [config['subscriptions']]. *)
Record subscription_config := {
  cfg_topic_name : string;
  cfg_message_type : string;
  cfg_fields : list field_config
}.

(** One entry of [self.fields]. *)
Record field := {
  name : string;
  topic_name : string;
  field_path : string
}.

(** One entry of [self.recorded_subscriptions]; the subscription handle is
    identified by the class and topic it was created with. *)
Record subscription_record := {
  subscription : msg_class * string;
  message_type : msg_class;
  subscribed_fields : list field_config
}.

(** A row is a Python [dict] from column name to value. *)
Abbreviation row := (gmap string value).

(** The attributes of [DataRecorderNode].  [timer] is [None] until
    [__init__] has assigned it. *)
Record node := {
  output_csv : string;
  recorded_subscriptions : gmap string subscription_record;
  latest_messages : gmap string value;
  fields : list field;
  data : list row;
  timer : option Q
}.

Definition set_latest_messages (n : node) (m : gmap string value) : node :=
  {| output_csv := output_csv n;
     recorded_subscriptions := recorded_subscriptions n;
     latest_messages := m;
     fields := fields n;
     data := data n;
     timer := timer n |}.

Definition set_data (n : node) (d : list row) : node :=
  {| output_csv := output_csv n;
     recorded_subscriptions := recorded_subscriptions n;
     latest_messages := latest_messages n;
     fields := fields n;
     data := d;
     timer := timer n |}.

Definition set_timer (n : node) (t : Q) : node :=
  {| output_csv := output_csv n;
     recorded_subscriptions := recorded_subscriptions n;
     latest_messages := latest_messages n;
     fields := fields n;
     data := data n;
     timer := Some t |}.

(** [d.get(key)]: the stored value, or [None] when the key is absent. *)
Definition dict_get (d : gmap string value) (key : string) : value :=
  default VNone (d !! key).

(** [dict(pairs)]: later pairs overwrite earlier ones. *)
Definition dict_of_pairs (pairs : list (string * value)) : gmap string value :=
  fold_left (fun d kv => <[kv.1 := kv.2]> d) pairs ∅.

(** ** Construction *)

Section Construction.

(** [rosidl_runtime_py.utilities.get_message]: for a type string it returns
    a class, returns [None], or raises. *)
Variable get_message : string -> result (option msg_class).

(** The inner loop of [__init__]: [for field in fields: self.fields.append(...)]. *)
Definition collect_fields (topic : string) (fs : list field_config) : list field :=
  map (fun f => {| name := cfg_name f; topic_name := topic;
                   field_path := cfg_field_path f |}) fs.

(** One iteration of [for sub in config['subscriptions']]. *)
Definition subscribe (n : node) (sub : subscription_config) : Run node :=
  let topic := cfg_topic_name sub in
  let message_type_str := cfg_message_type sub in
  msg_module ← lift (get_message message_type_str);
  match msg_module with
  | None =>
      perform (Log ERROR [Lit "Could not import message type "; Lit message_type_str]);;
      mret n
  | Some cls =>
      perform (CreateSubscription cls topic 10);;
      mret {| output_csv := output_csv n;
              recorded_subscriptions :=
                <[topic := {| subscription := (cls, topic); message_type := cls;
                              subscribed_fields := cfg_fields sub |}]>
                  (recorded_subscriptions n);
              latest_messages := <[topic := VNone]> (latest_messages n);
              fields := fields n ++ collect_fields topic (cfg_fields sub);
              data := data n;
              timer := timer n |}
  end.

(** [DataRecorderNode.__init__], from the loaded configuration and the
    values of the [interval] and [output_csv] parameters. *)
Definition __init__ (config : list subscription_config) (interval : Q)
    (output : string) : Run node :=
  let self := {| output_csv := output; recorded_subscriptions := ∅;
                 latest_messages := ∅; fields := []; data := [];
                 timer := None |} in
  self ← for_each subscribe config self;
  perform (CreateTimer interval);;
  mret (set_timer self interval).

End Construction.

(** ** Updates and sampling *)

Definition message_callback (n : node) (msg : value) (topic : string) : node :=
  set_latest_messages n (<[topic := msg]> (latest_messages n)).

(** The closure [create_callback] hands to the subscription of a topic. *)
Definition create_callback (topic : string) : value -> node -> node :=
  fun msg n => message_callback n msg topic.

(** One iteration of [for field in self.fields] in [record_data]. *)
Definition record_field (n : node) (r : row) (f : field) : Run row :=
  let msg := dict_get (latest_messages n) (topic_name f) in
  if is_not_None msg then
    v ← get_field_value msg (field_path f);
    if is_not_None v then mret (<[name f := v]> r)
    else mret (<[name f := VStr ""]> r)
  else mret (<[name f := VStr ""]> r).

Definition record_data (n : node) : Run node :=
  r ← for_each (record_field n) (fields n) ∅;
  mret (set_data n (data n ++ [r])).

(** ** Export *)

(** [csv.DictWriter._dict_to_list] with the defaults [restval=''] and
    [extrasaction='raise']. *)
Definition dict_to_list (fieldnames : list string) (rowdict : row) : Run (list value) :=
  if forallb (fun k => bool_decide (k ∈ fieldnames)) (map fst (map_to_list rowdict))
  then mret (map (fun k => default (VStr "") (rowdict !! k)) fieldnames)
  else raise ValueError.

(** [DictWriter.writerow] on the writer of the file at [path]: the cells
    go to the underlying [csv.writer], which renders them as text. *)
Definition writerow (path : string) (fieldnames : list string) (rowdict : row)
    : Run unit :=
  cells ← dict_to_list fieldnames rowdict;
  lift (write_w path cells);;
  perform (WriteRow cells).

(** [DictWriter.writeheader]: [writerow(dict(zip(fieldnames, fieldnames)))]. *)
Definition writeheader (path : string) (fieldnames : list string) : Run unit :=
  writerow path fieldnames (dict_of_pairs (map (fun k => (k, VStr k)) fieldnames)).

(** The file at [path] can be written: opening it, every write to it and
    closing it return. *)
Definition writable (path : string) : Prop :=
  open_w path = Returned tt ∧
  (∀ cells, write_w path cells = Returned tt) ∧
  close_w path = Returned tt.

Definition write_csv (n : node) : Run unit :=
  match data n with
  | [] => perform (Log INFO [Lit "No data to write to CSV."])
  | _ :: _ =>
      let field_names := map name (fields n) in
      lift (open_w (output_csv n));;
      perform (OpenForWriting (output_csv n));;
      writeheader (output_csv n) field_names;;
      for_each (fun _ r => writerow (output_csv n) field_names r) (data n) tt;;
      lift (close_w (output_csv n));;
      perform (Log INFO [Lit "Data written to "; Lit (output_csv n)])
  end.

(** ** Executions *)

(** The two callbacks the executor dispatches. *)
Inductive event :=
| Message (topic : string) (msg : value)
| Tick.

Definition step (n : node) (e : event) : Run node :=
  match e with
  | Message topic msg => mret (create_callback topic msg n)
  | Tick => record_data n
  end.

Definition run (evs : list event) (n : node) : Run node :=
  for_each step evs n.

Fixpoint ticks (evs : list event) : nat :=
  match evs with
  | [] => 0
  | Tick :: rest => S (ticks rest)
  | Message _ _ :: rest => ticks rest
  end.

(** The rows handed to the CSV writer, in the order of the calls. *)
Definition written_rows (es : list effect) : list (list value) :=
  omap (fun e => match e with WriteRow cells => Some cells | _ => None end) es.

(** ** Derived notions used in the statements *)

(** The value [record_data] stores for one field: what the extraction
    returned, or [''] when the topic has no message yet or the extraction
    returned [None]. *)
Definition cell (n : node) (f : field) : value :=
  let msg := dict_get (latest_messages n) (topic_name f) in
  if is_not_None msg then
    match outcome (get_field_value msg (field_path f)) with
    | Returned v => if is_not_None v then v else VStr ""
    | Raised _ => VStr ""
    end
  else VStr "".

(** The row one tick builds, as a pure function of the node. *)
Definition sampled (n : node) : row :=
  fold_left (fun r f => <[name f := cell n f]> r) (fields n) ∅.

(** The last configured field with a given output name. *)
Definition last_named (nm : string) (fs : list field) : option field :=
  last (List.filter (fun f => String.eqb (name f) nm) fs).

(** The rows the ticks of an execution build, in the order of the ticks. *)
Fixpoint samples (evs : list event) (n : node) : list row :=
  match evs with
  | [] => []
  | Message topic msg :: rest => samples rest (message_callback n msg topic)
  | Tick :: rest => sampled n :: samples rest (set_data n (data n ++ [sampled n]))
  end.

(** The node an execution leaves behind. *)
Definition after_event (n : node) (e : event) : node :=
  match e with
  | Message topic msg => message_callback n msg topic
  | Tick => set_data n (data n ++ [sampled n])
  end.

Definition after (evs : list event) (n : node) : node :=
  fold_left after_event evs n.


(** The cells of a row in column order, as [DictWriter] lays them out. *)
Definition cells (fieldnames : list string) (r : row) : list value :=
  map (fun k => default (VStr "") (r !! k)) fieldnames.

(** Every key of the row is a column: [DictWriter.writerow] accepts it. *)
Definition conforms (fieldnames : list string) (r : row) : Prop :=
  ∀ k, is_Some (r !! k) → k ∈ fieldnames.

(** The fields [__init__] collects: those of the subscriptions whose message
    type resolves, in configuration order. *)
Definition configured_fields (get_message : string -> result (option msg_class))
    (config : list subscription_config) : list field :=
  flat_map (fun sub =>
              match get_message (cfg_message_type sub) with
              | Returned (Some _) => collect_fields (cfg_topic_name sub) (cfg_fields sub)
              | _ => []
              end) config.

(** The fields the configuration declares for the sources whose message
    type resolves, in configuration order, written out from the
    configuration records. *)
Definition declared_fields (get_message : string -> result (option msg_class))
    (config : list subscription_config) : list field :=
  flat_map (fun sub =>
              match get_message (cfg_message_type sub) with
              | Returned (Some _) =>
                  map (fun fc => {| name := cfg_name fc;
                                    topic_name := cfg_topic_name sub;
                                    field_path := cfg_field_path fc |}) (cfg_fields sub)
              | _ => []
              end) config.

(** The data attributes of Python's numbers.  The examples use this table
    as the built-in attributes; their paths name message fields, these
    attributes, or nothing the object has. *)
Definition python_numbers : Builtins := fun v attr =>
  match v with
  | VInt z =>
      if String.eqb attr "real" then Some (VInt z)
      else if String.eqb attr "numerator" then Some (VInt z)
      else if String.eqb attr "imag" then Some (VInt 0)
      else if String.eqb attr "denominator" then Some (VInt 1)
      else None
  | VBool b =>
      if String.eqb attr "real" then Some (VInt (Z.b2z b))
      else if String.eqb attr "numerator" then Some (VInt (Z.b2z b))
      else if String.eqb attr "imag" then Some (VInt 0)
      else if String.eqb attr "denominator" then Some (VInt 1)
      else None
  | VFloat q =>
      if String.eqb attr "real" then Some (VFloat q)
      else if String.eqb attr "imag" then Some (VFloat 0)
      else None
  | _ => None
  end.

(** A file system in which the empty path and the paths under
    [/nonexistent_dir/] cannot be opened, what is written to [/dev/full] is
    refused when the file is flushed on closing, and every other path can
    be written. *)
Definition demo_files : FileSystem := {|
  open_w path :=
    if String.eqb path "" then Raised (OtherError "FileNotFoundError")
    else if String.prefix "/nonexistent_dir/" path
         then Raised (OtherError "FileNotFoundError")
         else Returned tt;
  write_w path cells := Returned tt;
  close_w path :=
    if String.eqb path "/dev/full" then Raised (OtherError "OSError") else Returned tt
|}.

(** Concrete configurations for the examples. *)
Definition demo_get_message (s : string) : result (option msg_class) :=
  if String.eqb s "nav_msgs/msg/Odometry" then Returned (Some (MsgClass s))
  else if String.eqb s "std_msgs/msg/Int32" then Returned (Some (MsgClass s))
  else Returned None.

Definition demo_config : list subscription_config :=
  [ {| cfg_topic_name := "/odom"; cfg_message_type := "nav_msgs/msg/Odometry";
       cfg_fields := [ {| cfg_name := "x"; cfg_field_path := "pose.position.x" |};
                       {| cfg_name := "pose"; cfg_field_path := "pose" |} ] |};
    {| cfg_topic_name := "/count"; cfg_message_type := "std_msgs/msg/Int32";
       cfg_fields := [ {| cfg_name := "count"; cfg_field_path := "data" |} ] |} ].

Definition demo_odom (x : Z) : value :=
  VMsg [("pose", VMsg [("position", VMsg [("x", VInt x); ("y", VInt 0)])])].

(** The node [__init__] returns, or the unconfigured node if it raised. *)
Definition constructed (c : Run node) : node :=
  match outcome c with
  | Returned n => n
  | Raised _ => {| output_csv := ""; recorded_subscriptions := ∅;
                   latest_messages := ∅; fields := []; data := []; timer := None |}
  end.

Definition demo_node : node :=
  constructed (__init__ demo_get_message demo_config (1 # 20) "output.csv").

(** The demo configuration with a source whose type does not resolve. *)
Definition demo_config_unresolved : list subscription_config :=
  [ {| cfg_topic_name := "/odom"; cfg_message_type := "nav_msgs/msg/Odometry";
       cfg_fields := [ {| cfg_name := "x"; cfg_field_path := "pose.position.x" |};
                       {| cfg_name := "pose"; cfg_field_path := "pose" |} ] |};
    {| cfg_topic_name := "/imu"; cfg_message_type := "sensor_msgs/msg/Imuu";
       cfg_fields := [ {| cfg_name := "ax"; cfg_field_path := "linear_acceleration.x" |} ] |};
    {| cfg_topic_name := "/count"; cfg_message_type := "std_msgs/msg/Int32";
       cfg_fields := [ {| cfg_name := "count"; cfg_field_path := "data" |} ] |} ].

(** Two fields of different topics share the output name ["v"]. *)
Definition duplicate_config : list subscription_config :=
  [ {| cfg_topic_name := "/odom"; cfg_message_type := "nav_msgs/msg/Odometry";
       cfg_fields := [ {| cfg_name := "v"; cfg_field_path := "pose.position.x" |} ] |};
    {| cfg_topic_name := "/count"; cfg_message_type := "std_msgs/msg/Int32";
       cfg_fields := [ {| cfg_name := "v"; cfg_field_path := "data" |} ] |} ].

Definition duplicate_node : node :=
  constructed (__init__ demo_get_message duplicate_config (1 # 20) "output.csv").

(** Source [A] with field [x.y] as column [col1]. *)
Definition scenario_node : node :=
  constructed
    (__init__ (fun s => Returned (Some (MsgClass s)))
       [ {| cfg_topic_name := "A"; cfg_message_type := "demo/msg/A";
            cfg_fields := [ {| cfg_name := "col1"; cfg_field_path := "x.y" |} ] |} ]
       1 "output.csv").

Definition scenario_value (y : Z) : value := VMsg [("x", VMsg [("y", VInt y)])].

(** ** The process *)

(** What [main] does around the node: the calls into rclpy that start and
    end the process, and the effects of the node between them. *)
Inductive process_effect :=
| RclpyInit
| Node (e : effect)
| DestroyNode
| RclpyShutdown.

(** How [rclpy.spin] ends when no callback raises: by [KeyboardInterrupt],
    by returning, or by another exception. *)
Inductive spin_end :=
| KeyboardInterrupt
| SpinReturned
| SpinRaised (e : exception).

(** [rclpy.spin(node)] dispatching the given callbacks in order: the effects
    performed, the node reached, and the exception of the callback that
    raised, if one did. *)
Fixpoint spin (evs : list event) (n : node) : list effect * node * option exception :=
  match evs with
  | [] => ([], n, None)
  | e :: rest =>
      match step n e with
      | (es, Returned n') =>
          let '(es', n'', raised) := spin rest n' in (es ++ es', n'', raised)
      | (es, Raised x) => (es, n, Some x)
      end
  end.

(** [main]: the node is constructed outside the [try]; [KeyboardInterrupt]
    is swallowed; the [finally] block exports, destroys the node and shuts
    rclpy down, and then a pending exception propagates. *)
Definition main (get_message : string -> result (option msg_class))
    (config : list subscription_config) (interval : Q) (output : string)
    (evs : list event) (ending : spin_end) : list process_effect * result unit :=
  match __init__ get_message config interval output with
  | (es0, Raised e) => (RclpyInit :: map Node es0, Raised e)
  | (es0, Returned node) =>
      let '(es1, node', raised) := spin evs node in
      let pending :=
        match raised with
        | Some e => Some e
        | None => match ending with
                  | KeyboardInterrupt | SpinReturned => None
                  | SpinRaised e => Some e
                  end
        end in
      match write_csv node' with
      | (es2, Raised e) => (RclpyInit :: map Node (es0 ++ es1 ++ es2), Raised e)
      | (es2, Returned _) =>
          (RclpyInit :: map Node (es0 ++ es1 ++ es2) ++ [DestroyNode; RclpyShutdown],
           match pending with
           | Some e => Raised e
           | None => Returned tt
           end)
      end
  end.

(** The effects of the node among the effects of the process. *)
Definition node_effects (pes : list process_effect) : list effect :=
  omap (fun pe => match pe with Node e => Some e | _ => None end) pes.

(** ** Further derived notions *)

(** What [__init__] does for one subscription whose type lookup returns. *)
Definition startup_effect (get_message : string -> result (option msg_class))
    (sub : subscription_config) : list effect :=
  match get_message (cfg_message_type sub) with
  | Returned (Some cls) => [CreateSubscription cls (cfg_topic_name sub) 10]
  | Returned None =>
      [Log ERROR [Lit "Could not import message type "; Lit (cfg_message_type sub)]]
  | Raised _ => []
  end.

(** The record [__init__] stores for a subscription whose type resolves. *)
Definition registered (get_message : string -> result (option msg_class))
    (sub : subscription_config) : option subscription_record :=
  match get_message (cfg_message_type sub) with
  | Returned (Some cls) =>
      Some {| subscription := (cls, cfg_topic_name sub); message_type := cls;
              subscribed_fields := cfg_fields sub |}
  | _ => None
  end.

(** The record of the last subscription of a topic whose type resolves. *)
Fixpoint last_registered (get_message : string -> result (option msg_class))
    (topic : string) (config : list subscription_config) : option subscription_record :=
  match config with
  | [] => None
  | sub :: rest =>
      match last_registered get_message topic rest with
      | Some later => Some later
      | None => if String.eqb (cfg_topic_name sub) topic
                then registered get_message sub else None
      end
  end.

(** The topics [__init__] registers: those of the subscriptions whose
    message type resolves, in configuration order. *)
Definition resolved_topics (get_message : string -> result (option msg_class))
    (config : list subscription_config) : list string :=
  flat_map (fun sub =>
              match registered get_message sub with
              | Some _ => [cfg_topic_name sub]
              | None => []
              end) config.

(** Two subscriptions of the topic ["/odom"], with different fields. *)
Definition repeated_topic_config : list subscription_config :=
  [ {| cfg_topic_name := "/odom"; cfg_message_type := "nav_msgs/msg/Odometry";
       cfg_fields := [ {| cfg_name := "x"; cfg_field_path := "pose.position.x" |} ] |};
    {| cfg_topic_name := "/odom"; cfg_message_type := "nav_msgs/msg/Odometry";
       cfg_fields := [ {| cfg_name := "y"; cfg_field_path := "pose.position.y" |} ] |} ].

(** A lookup that raises for the mistyped message type. *)
Definition raising_get_message (s : string) : result (option msg_class) :=
  if String.eqb s "sensor_msgs/msg/Imuu" then Raised (OtherError "ModuleNotFoundError")
  else demo_get_message s.

(** The error record a tick logs for a field: one when the topic has a
    message in which the path does not resolve, none otherwise. *)
Definition miss_log (n : node) (f : field) : list effect :=
  let msg := dict_get (latest_messages n) (topic_name f) in
  if is_not_None msg then
    match outcome (walk msg (split "." (field_path f))) with
    | Returned _ => []
    | Raised _ =>
        [Log ERROR [Lit "Could not get field '"; Lit (field_path f);
                    Lit "' from message on topic '"; Fmt msg; Lit "'"]]
    end
  else [].

(** The number of occurrences of a character in a string. *)
Fixpoint occurrences (c : ascii) (s : string) : nat :=
  match s with
  | EmptyString => 0
  | String d rest => (if Ascii.eqb d c then 1 else 0) + occurrences c rest
  end.

(** * Properties *)

(** ** The effect monad *)

Lemma outcome_bind {A B} (c : Run A) (k : A -> Run B) :
  outcome (c ≫= k) =
  match outcome c with
  | Returned a => outcome (k a)
  | Raised e => Raised e
  end.
Proof.
  destruct c as [es [a|e]]; simpl; [|reflexivity].
  unfold mbind, Run_bind. destruct (k a); reflexivity.
Qed.

Lemma effects_bind {A B} (c : Run A) (k : A -> Run B) :
  effects (c ≫= k) =
  effects c ++ match outcome c with
               | Returned a => effects (k a)
               | Raised _ => []
               end.
Proof.
  destruct c as [es [a|e]]; simpl.
  - unfold mbind, Run_bind. destruct (k a); reflexivity.
  - unfold mbind, Run_bind. simpl. by rewrite app_nil_r.
Qed.

Lemma Run_eta {A} (c : Run A) : c = (effects c, outcome c).
Proof. by destruct c. Qed.

Lemma for_each_returned {S A} (body : S -> A -> Run S) (g : S -> A -> S) :
  (∀ s x, outcome (body s x) = Returned (g s x)) →
  ∀ xs s, outcome (for_each body xs s) = Returned (fold_left g xs s).
Proof.
  intros Hbody xs. induction xs as [|x xs IH]; intros s; simpl; [done|].
  rewrite outcome_bind, Hbody. apply IH.
Qed.

Lemma for_each_app {S A} (body : S -> A -> Run S) (xs ys : list A) (s : S) :
  for_each body (xs ++ ys) s = for_each body xs s ≫= for_each body ys.
Proof.
  revert s. induction xs as [|x xs IH]; intros s; simpl.
  - unfold mbind, Run_bind, mret, Run_ret. by destruct (for_each body ys s).
  - destruct (body s x) as [es [s'|e]]; unfold mbind, Run_bind in *; simpl; [|done].
    rewrite IH. destruct (for_each body xs s') as [es1 [s1|e1]]; [|done].
    destruct (for_each body ys s1) as [es2 r2]. by rewrite app_assoc.
Qed.

(** ** Field extraction *)

Lemma split_nonempty sep s : split sep s ≠ [].
Proof.
  destruct s as [|c s]; simpl; [done|].
  destruct (Ascii.eqb c sep); [done|]. by destruct (split sep s).
Qed.

Lemma getattr_cases v attr :
  (∃ x, getattr v attr = ([], Returned x)) ∨ getattr v attr = ([], Raised AttributeError).
Proof.
  unfold getattr.
  destruct (own_attr v attr); [by eauto|].
  destruct (builtin_attr v attr); eauto.
Qed.

(** The walk performs no effect, and the only exception it can raise is the
    one the [except] clause catches. *)
Lemma walk_cases msg attrs :
  (∃ v, walk msg attrs = ([], Returned v)) ∨ walk msg attrs = ([], Raised AttributeError).
Proof.
  unfold walk. revert msg. induction attrs as [|attr attrs IH]; intros msg; simpl.
  - left. by exists msg.
  - destruct (getattr_cases msg attr) as [[x ->] | ->].
    + destruct (IH x) as [[v Hv] | Hv]; unfold mbind, Run_bind; rewrite Hv; eauto.
    + by right.
Qed.

Lemma get_field_value_resolved msg field_path v :
  outcome (walk msg (split "." field_path)) = Returned v →
  get_field_value msg field_path = ([], Returned v).
Proof.
  intros Hwalk. unfold get_field_value.
  destruct (walk_cases msg (split "." field_path)) as [[w Hw] | Hw];
    rewrite Hw in *; simpl in *; congruence.
Qed.

Lemma get_field_value_missed msg field_path e :
  outcome (walk msg (split "." field_path)) = Raised e →
  outcome (get_field_value msg field_path) = Returned VNone.
Proof.
  intros Hwalk. unfold get_field_value.
  destruct (walk_cases msg (split "." field_path)) as [[w Hw] | Hw];
    rewrite Hw in *; simpl in *; [congruence | done].
Qed.

Lemma get_field_value_returns msg field_path :
  ∃ v, outcome (get_field_value msg field_path) = Returned v.
Proof.
  destruct (outcome (walk msg (split "." field_path))) as [v|e] eqn:Hwalk.
  - exists v. by rewrite (get_field_value_resolved _ _ _ Hwalk).
  - exists VNone. by apply (get_field_value_missed _ _ e).
Qed.

(** ** One tick *)

Lemma record_field_outcome n r f :
  outcome (record_field n r f) = Returned (<[name f := cell n f]> r).
Proof.
  unfold record_field, cell.
  destruct (is_not_None (dict_get (latest_messages n) (topic_name f))); [|done].
  rewrite outcome_bind.
  destruct (get_field_value_returns (dict_get (latest_messages n) (topic_name f))
              (field_path f)) as [v ->].
  by destruct (is_not_None v).
Qed.

Lemma record_data_outcome n :
  outcome (record_data n) = Returned (set_data n (data n ++ [sampled n])).
Proof.
  unfold record_data. rewrite outcome_bind.
  rewrite (for_each_returned _ (fun r f => <[name f := cell n f]> r))
    by apply record_field_outcome.
  reflexivity.
Qed.

Lemma record_data_appends n :
  ∃ es, record_data n = (es, Returned (set_data n (data n ++ [sampled n]))).
Proof.
  exists (effects (record_data n)).
  rewrite <- record_data_outcome. apply Run_eta.
Qed.

Lemma last_named_cons nm f fs :
  last_named nm (f :: fs) =
  match last_named nm fs with
  | Some g => Some g
  | None => if String.eqb (name f) nm then Some f else None
  end.
Proof.
  unfold last_named. simpl.
  destruct (String.eqb (name f) nm).
  - apply last_cons.
  - by destruct (last (List.filter _ fs)).
Qed.

Lemma fold_insert_lookup (c : field -> value) fs (r0 : row) nm :
  fold_left (fun r f => <[name f := c f]> r) fs r0 !! nm =
  match last_named nm fs with
  | Some f => Some (c f)
  | None => r0 !! nm
  end.
Proof.
  revert r0. induction fs as [|f fs IH]; intros r0; simpl; [done|].
  rewrite IH, last_named_cons.
  destruct (last_named nm fs); [done|].
  destruct (String.eqb_spec (name f) nm) as [->|Hne].
  - by rewrite lookup_insert_eq.
  - by rewrite lookup_insert_ne.
Qed.

Lemma sampled_lookup n nm :
  sampled n !! nm = cell n <$> last_named nm (fields n).
Proof.
  unfold sampled. rewrite fold_insert_lookup, lookup_empty.
  by destruct (last_named nm (fields n)).
Qed.

Lemma last_named_Some nm fs f :
  last_named nm fs = Some f → f ∈ fs ∧ name f = nm.
Proof.
  unfold last_named. intros Hlast.
  assert (In f (List.filter (fun f => String.eqb (name f) nm) fs)) as Hin.
  { apply list_elem_of_In, last_Some_elem_of, Hlast. }
  apply filter_In in Hin as [Hin Heq].
  split; [by apply list_elem_of_In | by apply String.eqb_eq].
Qed.

Lemma last_named_is_Some nm fs :
  nm ∈ map name fs → is_Some (last_named nm fs).
Proof.
  induction fs as [|f fs IH]; simpl; [by intros ?%elem_of_nil|].
  intros [->|Hin]%elem_of_cons; rewrite last_named_cons.
  - destruct (last_named (name f) fs); [done|]. by rewrite String.eqb_refl.
  - destruct (IH Hin) as [g ->]. done.
Qed.

Lemma sampled_is_Some n nm :
  is_Some (sampled n !! nm) ↔ nm ∈ map name (fields n).
Proof.
  rewrite sampled_lookup. split.
  - intros [v Hv]. destruct (last_named nm (fields n)) as [f|] eqn:Hf; [|done].
    apply last_named_Some in Hf as [Hin <-]. by apply list_elem_of_fmap_2.
  - intros [f ->]%last_named_is_Some. done.
Qed.

Lemma for_each_skip {S A} (body : S -> A -> Run S) (x : A) (l : list effect)
    (xs ys : list A) (s : S) :
  (∀ s, body s x = (l, Returned s)) →
  for_each body (xs ++ x :: ys) s =
    match for_each body xs s with
    | (es1, Returned s1) => let '(es2, r) := for_each body ys s1 in (es1 ++ l ++ es2, r)
    | (es1, Raised e) => (es1, Raised e)
    end ∧
  for_each body (xs ++ ys) s =
    match for_each body xs s with
    | (es1, Returned s1) => let '(es2, r) := for_each body ys s1 in (es1 ++ es2, r)
    | (es1, Raised e) => (es1, Raised e)
    end.
Proof.
  intros Hskip. rewrite !for_each_app. cbn [for_each].
  destruct (for_each body xs s) as [es1 [s1|e]]; unfold mbind, Run_bind; [|done].
  rewrite Hskip. by destruct (for_each body ys s1).
Qed.

(** ** Executions *)

Lemma step_outcome n e : outcome (step n e) = Returned (after_event n e).
Proof. destruct e; simpl; [done | apply record_data_outcome]. Qed.

Lemma run_outcome evs n : outcome (run evs n) = Returned (after evs n).
Proof. apply for_each_returned, step_outcome. Qed.

Lemma run_returns evs n : ∃ es, run evs n = (es, Returned (after evs n)).
Proof.
  exists (effects (run evs n)). rewrite <- run_outcome. apply Run_eta.
Qed.

Lemma after_fields evs n : fields (after evs n) = fields n.
Proof.
  unfold after. revert n. induction evs as [|[topic msg|] evs IH]; intros n; simpl;
    [done | by rewrite IH | by rewrite IH].
Qed.

Lemma samples_data_irrelevant evs n d :
  samples evs (set_data n d) = samples evs n.
Proof.
  revert n d. induction evs as [|[topic msg|] evs IH]; intros n d; simpl; [done | |].
  - apply (IH (message_callback n msg topic) d).
  - f_equal. rewrite (IH n (data n ++ [sampled n])).
    apply (IH n (d ++ [sampled n])).
Qed.

Lemma after_data evs n : data (after evs n) = data n ++ samples evs n.
Proof.
  unfold after. revert n. induction evs as [|[topic msg|] evs IH]; intros n; simpl.
  - by rewrite app_nil_r.
  - by rewrite IH.
  - rewrite IH. simpl. rewrite samples_data_irrelevant. by rewrite <- app_assoc.
Qed.

Lemma samples_length evs n : length (samples evs n) = ticks evs.
Proof.
  revert n. induction evs as [|[topic msg|] evs IH]; intros n; simpl; auto.
Qed.

Lemma ticks_replicate N : ticks (replicate N Tick) = N.
Proof. induction N as [|N IH]; simpl; auto. Qed.


(** ** Construction *)

Lemma for_each_invariant {S A} (P : S -> Prop) (body : S -> A -> Run S) :
  (∀ s x s', P s → outcome (body s x) = Returned s' → P s') →
  ∀ xs s s', P s → outcome (for_each body xs s) = Returned s' → P s'.
Proof.
  intros Hbody xs. induction xs as [|x xs IH]; intros s s' HP; simpl.
  - by intros [= <-].
  - rewrite outcome_bind. destruct (outcome (body s x)) as [s1|e] eqn:Hs1; [|done].
    apply IH. by apply (Hbody s x).
Qed.

Lemma subscribe_cases get_message n sub s' :
  outcome (subscribe get_message n sub) = Returned s' →
  (get_message (cfg_message_type sub) = Returned None ∧ s' = n) ∨
  (∃ cls, get_message (cfg_message_type sub) = Returned (Some cls) ∧
          latest_messages s' = <[cfg_topic_name sub := VNone]> (latest_messages n) ∧
          fields s' = fields n ++ collect_fields (cfg_topic_name sub) (cfg_fields sub) ∧
          data s' = data n ∧ output_csv s' = output_csv n).
Proof.
  unfold subscribe, lift.
  destruct (get_message (cfg_message_type sub)) as [[cls|]|e]; simpl; [| |done].
  - intros [= <-]. right. by exists cls.
  - intros [= <-]. by left.
Qed.

Lemma init_outcome get_message config interval output n :
  outcome (__init__ get_message config interval output) = Returned n →
  ∃ s, outcome (for_each (subscribe get_message) config
                  {| output_csv := output; recorded_subscriptions := ∅;
                     latest_messages := ∅; fields := []; data := [];
                     timer := None |}) = Returned s ∧
       n = set_timer s interval.
Proof.
  unfold __init__. rewrite outcome_bind.
  destruct (outcome (for_each _ _ _)) as [s|e]; [|done].
  simpl. intros [= <-]. by exists s.
Qed.

Lemma init_data get_message config interval output n :
  outcome (__init__ get_message config interval output) = Returned n → data n = [].
Proof.
  intros (s & Hs & ->)%init_outcome. simpl.
  revert Hs. apply (for_each_invariant (fun s => data s = [])); [|done].
  intros s0 sub s1 Hs0 [[_ ->] | (cls & _ & _ & _ & -> & _)]%subscribe_cases; done.
Qed.

Lemma init_latest get_message config interval output n topic :
  outcome (__init__ get_message config interval output) = Returned n →
  dict_get (latest_messages n) topic = VNone.
Proof.
  intros (s & Hs & ->)%init_outcome. simpl.
  revert Hs. apply (for_each_invariant (fun s => dict_get (latest_messages s) topic = VNone)); [|done].
  intros s0 sub s1 Hs0 [[_ ->] | (cls & _ & -> & _)]%subscribe_cases; [done|].
  unfold dict_get in *.
  destruct (decide (cfg_topic_name sub = topic)) as [->|Hne].
  - by rewrite lookup_insert_eq.
  - by rewrite lookup_insert_ne.
Qed.

Lemma init_shape get_message config interval output :
  __init__ get_message config interval output =
  match for_each (subscribe get_message) config
          {| output_csv := output; recorded_subscriptions := ∅;
             latest_messages := ∅; fields := []; data := []; timer := None |} with
  | (es, Returned s) => (es ++ [CreateTimer interval], Returned (set_timer s interval))
  | (es, Raised e) => (es, Raised e)
  end.
Proof.
  unfold __init__. destruct (for_each _ _ _) as [es [s|e]]; reflexivity.
Qed.

Lemma subscribe_returns get_message s sub r :
  get_message (cfg_message_type sub) = Returned r →
  ∃ es s', subscribe get_message s sub = (es, Returned s') ∧
           fields s' = fields s ++ match r with
                                   | Some _ => collect_fields (cfg_topic_name sub) (cfg_fields sub)
                                   | None => []
                                   end ∧
           (∀ p, CreateTimer p ∉ es).
Proof.
  intros Hr. unfold subscribe, lift. rewrite Hr. destruct r as [cls|].
  - eexists _, _. split; [reflexivity|]. split; [done|].
    intros p [?|?%elem_of_nil]%elem_of_cons; done.
  - eexists _, _. split; [reflexivity|]. split; [by rewrite app_nil_r|].
    intros p [?|?%elem_of_nil]%elem_of_cons; done.
Qed.

Lemma subscribe_all get_message config :
  (∀ sub, sub ∈ config → ∃ r, get_message (cfg_message_type sub) = Returned r) →
  ∀ s, ∃ es s', for_each (subscribe get_message) config s = (es, Returned s') ∧
                fields s' = fields s ++ configured_fields get_message config ∧
                (∀ p, CreateTimer p ∉ es).
Proof.
  induction config as [|sub config IH]; intros Hres s.
  - exists [], s. simpl. rewrite app_nil_r. split_and!; [done..|]. by intros p ?%elem_of_nil.
  - destruct (Hres sub) as [r Hr]; [by left|].
    destruct (subscribe_returns get_message s sub r Hr) as (es1 & s1 & Hsub & Hf1 & Ht1).
    destruct (IH (fun x Hx => Hres x (list_elem_of_further _ _ _ Hx)) s1)
      as (es2 & s2 & Hrun & Hf2 & Ht2).
    exists (es1 ++ es2), s2. split_and!.
    + cbn [for_each]. rewrite Hsub. unfold mbind, Run_bind. by rewrite Hrun.
    + rewrite Hf2, Hf1, <- app_assoc. cbn [configured_fields flat_map]. rewrite Hr.
      by destruct r.
    + intros p [?|?]%elem_of_app; [by apply (Ht1 p) | by apply (Ht2 p)].
Qed.

(** ** Export *)

Lemma dict_to_list_conforming fieldnames r :
  conforms fieldnames r → dict_to_list fieldnames r = ([], Returned (cells fieldnames r)).
Proof.
  intros Hconf. unfold dict_to_list.
  assert (forallb (fun k => bool_decide (k ∈ fieldnames)) (map fst (map_to_list r)) = true)
    as ->; [|done].
  apply forallb_forall. intros k ([k' v] & <- & Hin)%in_map_iff.
  apply bool_decide_eq_true, Hconf. exists v.
  by apply elem_of_map_to_list, list_elem_of_In.
Qed.

Lemma writerow_conforming path fieldnames r :
  (∀ cells, write_w path cells = Returned tt) →
  conforms fieldnames r →
  writerow path fieldnames r = ([WriteRow (cells fieldnames r)], Returned tt).
Proof.
  intros Hwrite Hconf. unfold writerow. rewrite dict_to_list_conforming by done.
  unfold lift, mbind, Run_bind. by rewrite Hwrite.
Qed.

Lemma writerow_cases path fieldnames r :
  conforms fieldnames r →
  writerow path fieldnames r = ([WriteRow (cells fieldnames r)], Returned tt) ∨
  ∃ e, writerow path fieldnames r = ([], Raised e).
Proof.
  intros Hconf. unfold writerow. rewrite dict_to_list_conforming by done.
  destruct (write_w path (cells fieldnames r)) as [[]|e] eqn:Hwrite.
  - left. unfold lift, mbind, Run_bind. by rewrite Hwrite.
  - right. exists e. unfold lift, mbind, Run_bind. by rewrite Hwrite.
Qed.

Lemma write_rows_conforming path fieldnames rows :
  (∀ cells, write_w path cells = Returned tt) →
  Forall (conforms fieldnames) rows →
  for_each (fun _ r => writerow path fieldnames r) rows tt =
  (map (fun r => WriteRow (cells fieldnames r)) rows, Returned tt).
Proof.
  intros Hwrite. induction 1 as [|r rows Hr _ IH]; simpl; [done|].
  rewrite (writerow_conforming _ _ _ Hwrite Hr). unfold mbind, Run_bind. by rewrite IH.
Qed.

Lemma header_lookup fieldnames (d : row) k :
  fold_left (fun d kv => <[kv.1 := kv.2]> d) (map (fun k => (k, VStr k)) fieldnames) d !! k =
  if decide (k ∈ fieldnames) then Some (VStr k) else d !! k.
Proof.
  revert d. induction fieldnames as [|x xs IH]; intros d; cbn [map fold_left fst snd].
  - by rewrite decide_False by apply not_elem_of_nil.
  - rewrite IH.
    destruct (decide (k ∈ xs)) as [Hin|Hnin], (decide (k ∈ x :: xs)) as [Hin'|Hnin'].
    + done.
    + destruct Hnin'. by right.
    + apply elem_of_cons in Hin' as [->|?]; [|done]. by rewrite lookup_insert_eq.
    + rewrite lookup_insert_ne; [done|]. intros ->. destruct Hnin'. by left.
Qed.

Lemma header_conforms fieldnames :
  conforms fieldnames (dict_of_pairs (map (fun k => (k, VStr k)) fieldnames)).
Proof.
  intros k. unfold dict_of_pairs. rewrite header_lookup, lookup_empty.
  destruct (decide (k ∈ fieldnames)); [done | by intros [? ?]].
Qed.

Lemma header_cells fieldnames :
  cells fieldnames (dict_of_pairs (map (fun k => (k, VStr k)) fieldnames)) =
  map VStr fieldnames.
Proof.
  unfold cells, dict_of_pairs.
  apply map_ext_in. intros k Hk%list_elem_of_In.
  rewrite header_lookup, lookup_empty. by rewrite decide_True.
Qed.

Lemma writeheader_effects path fieldnames :
  (∀ cells, write_w path cells = Returned tt) →
  writeheader path fieldnames = ([WriteRow (map VStr fieldnames)], Returned tt).
Proof.
  intros Hwrite. unfold writeheader.
  by rewrite (writerow_conforming _ _ _ Hwrite (header_conforms _)), header_cells.
Qed.

Lemma write_csv_rows n r rows :
  data n = r :: rows →
  Forall (conforms (map name (fields n))) (data n) →
  writable (output_csv n) →
  write_csv n =
  (OpenForWriting (output_csv n)
     :: WriteRow (map VStr (map name (fields n)))
     :: map (fun r => WriteRow (cells (map name (fields n)) r)) (data n)
     ++ [Log INFO [Lit "Data written to "; Lit (output_csv n)]],
   Returned tt).
Proof.
  intros Hdata Hconf (Hopen & Hwrite & Hclose). unfold write_csv. rewrite Hdata at 1.
  rewrite Hopen, (writeheader_effects _ _ Hwrite),
    (write_rows_conforming _ _ _ Hwrite Hconf), Hclose.
  reflexivity.
Qed.

Lemma write_csv_open_fails n r rows e :
  data n = r :: rows →
  open_w (output_csv n) = Raised e →
  write_csv n = ([], Raised e).
Proof.
  intros Hdata Hopen. unfold write_csv. rewrite Hdata, Hopen. reflexivity.
Qed.

Lemma written_rows_app es1 es2 :
  written_rows (es1 ++ es2) = written_rows es1 ++ written_rows es2.
Proof. apply omap_app. Qed.

Lemma written_rows_of_rows (fieldnames : list string) (rows : list row) :
  written_rows (map (fun r => WriteRow (cells fieldnames r)) rows) =
  map (cells fieldnames) rows.
Proof. induction rows as [|r rows IH]; simpl; [done | by rewrite <- IH]. Qed.

Lemma sampled_conforms n : conforms (map name (fields n)) (sampled n).
Proof. intros k. apply sampled_is_Some. Qed.

Lemma samples_conform evs n :
  Forall (conforms (map name (fields n))) (samples evs n).
Proof.
  revert n. induction evs as [|[topic msg|] evs IH]; intros n; simpl.
  - constructor.
  - apply (IH (message_callback n msg topic)).
  - constructor; [apply sampled_conforms|].
    apply (IH (set_data n (data n ++ [sampled n]))).
Qed.

(** * Specification properties *)

(** ** Rows *)

Lemma sampled_dom n :
  dom (sampled n) =@{gset string} list_to_set (map name (fields n)).
Proof.
  apply set_eq. intros k.
  rewrite elem_of_dom, elem_of_list_to_set. apply sampled_is_Some.
Qed.

Lemma sampled_size n :
  size (sampled n) = length (remove_dups (map name (fields n))).
Proof.
  rewrite <- (size_dom (D := gset string)), sampled_dom.
  rewrite <- (size_list_to_set (C := gset string) (remove_dups _))
    by apply NoDup_remove_dups.
  f_equal. apply set_eq. intros k.
  by rewrite !elem_of_list_to_set, elem_of_remove_dups.
Qed.

Lemma sampled_size_distinct n :
  NoDup (map name (fields n)) → size (sampled n) = length (fields n).
Proof.
  intros Hdistinct.
  rewrite <- (size_dom (D := gset string)), sampled_dom.
  rewrite size_list_to_set by done. apply length_map.
Qed.

(** C1, amended: the row a tick appends has exactly the configured output
    names as its keys, for every node state: every configured field has an
    entry under its name, every entry belongs to a configured field,
    whatever the message cache holds.  The number of entries is the number
    of distinct output names, which is the number of fields when the names
    are distinct. *)
Theorem row_keys_are_the_configured_names (n : node) :
  ∃ es r, record_data n = (es, Returned (set_data n (data n ++ [r]))) ∧
          dom r =@{gset string} list_to_set (map name (fields n)) ∧
          (∀ f, f ∈ fields n → is_Some (r !! name f)) ∧
          (∀ k, is_Some (r !! k) → ∃ f, f ∈ fields n ∧ name f = k) ∧
          size r = length (remove_dups (map name (fields n))) ∧
          (NoDup (map name (fields n)) → size r = length (fields n)).
Proof.
  destruct (record_data_appends n) as [es Hes].
  exists es, (sampled n). split_and!.
  - exact Hes.
  - apply sampled_dom.
  - intros f Hf. apply sampled_is_Some. by apply list_elem_of_fmap_2.
  - intros k Hk%sampled_is_Some.
    apply list_elem_of_fmap in Hk as (f & -> & Hf). by exists f.
  - apply sampled_size.
  - apply sampled_size_distinct.
Qed.

Lemma cell_without_messages n f :
  cell (set_latest_messages n ∅) f = VStr "".
Proof. unfold cell, dict_get. simpl. by rewrite lookup_empty. Qed.

(** C2: a tick appends exactly one row and always returns; an execution
    with N ticks grows the table by N rows, so N ticks on an empty table
    leave N rows; a tick on a node that has received no message still
    appends its row, with [''] in every column. *)
Theorem one_row_per_tick :
  (∀ n, ∃ es r, record_data n = (es, Returned (set_data n (data n ++ [r])))) ∧
  (∀ evs n, ∃ es n', run evs n = (es, Returned n') ∧
                     length (data n') = length (data n) + ticks evs) ∧
  (∀ N n, ∃ es n', run (replicate N Tick) (set_data n []) = (es, Returned n') ∧
                   length (data n') = N) ∧
  (∀ n, ∃ es r, record_data (set_latest_messages n ∅) =
                  (es, Returned (set_data (set_latest_messages n ∅) (data n ++ [r]))) ∧
                ∀ f, f ∈ fields n → r !! name f = Some (VStr "")).
Proof.
  split_and!.
  - intros n. destruct (record_data_appends n) as [es Hes]. by exists es, (sampled n).
  - intros evs n. destruct (run_returns evs n) as [es Hes].
    exists es, (after evs n). split; [done|].
    by rewrite after_data, length_app, samples_length.
  - intros N n. destruct (run_returns (replicate N Tick) (set_data n [])) as [es Hes].
    exists es, (after (replicate N Tick) (set_data n [])). split; [done|].
    rewrite after_data, length_app, samples_length. simpl.
    apply ticks_replicate.
  - intros n. destruct (record_data_appends (set_latest_messages n ∅)) as [es Hes].
    exists es, (sampled (set_latest_messages n ∅)). split; [done|].
    intros f Hf. rewrite sampled_lookup. simpl.
    destruct (last_named_is_Some (name f) (fields n)) as [g ->].
    + by apply list_elem_of_fmap_2.
    + simpl. by rewrite cell_without_messages.
Qed.

(** ** The message cache *)


(** ** Export *)

Lemma write_csv_written n :
  Forall (conforms (map name (fields n))) (data n) →
  writable (output_csv n) →
  outcome (write_csv n) = Returned tt ∧
  written_rows (effects (write_csv n)) =
  match data n with
  | [] => []
  | _ :: _ => map VStr (map name (fields n))
              :: map (cells (map name (fields n))) (data n)
  end.
Proof.
  intros Hconf Hopen. destruct (data n) as [|r rows] eqn:Hdata.
  - unfold write_csv. by rewrite Hdata.
  - rewrite <- Hdata in Hconf. rewrite (write_csv_rows n r rows Hdata Hconf Hopen).
    split; [done|]. unfold effects. cbn [fst written_rows omap list_omap].
    fold (written_rows (map (fun r => WriteRow (cells (map name (fields n)) r)) (data n)
                        ++ [Log INFO [Lit "Data written to "; Lit (output_csv n)]])).
    rewrite written_rows_app, written_rows_of_rows. simpl. by rewrite app_nil_r, Hdata.
Qed.

Lemma written_bind {A B} (c : Run A) (k : A -> Run B) :
  written_rows (effects (c ≫= k)) =
  written_rows (effects c) ++ match outcome c with
                              | Returned a => written_rows (effects (k a))
                              | Raised _ => []
                              end.
Proof.
  rewrite effects_bind, written_rows_app. by destruct (outcome c).
Qed.

Lemma write_rows_prefix path fieldnames rows :
  Forall (conforms fieldnames) rows →
  written_rows (effects (for_each (fun _ r => writerow path fieldnames r) rows tt))
    `prefix_of` map (cells fieldnames) rows.
Proof.
  induction 1 as [|r rows Hr _ IH]; cbn [for_each map]; [done|].
  rewrite written_bind.
  destruct (writerow_cases path fieldnames r Hr) as [-> | [e ->]]; simpl.
  - by apply prefix_cons.
  - apply prefix_nil.
Qed.

Lemma written_lift_bind {A B} (x : result A) (k : A -> Run B) :
  written_rows (effects (lift x ≫= k)) =
  match x with
  | Returned a => written_rows (effects (k a))
  | Raised _ => []
  end.
Proof. rewrite written_bind. by destruct x. Qed.

Lemma written_perform_bind {B} (e : effect) (k : unit -> Run B) :
  written_rows (effects (perform e ≫= k)) =
  written_rows [e] ++ written_rows (effects (k tt)).
Proof. by rewrite written_bind. Qed.

Lemma write_csv_prefix n :
  Forall (conforms (map name (fields n))) (data n) →
  written_rows (effects (write_csv n))
    `prefix_of` map VStr (map name (fields n))
                :: map (cells (map name (fields n))) (data n).
Proof.
  intros Hconf. unfold write_csv.
  destruct (data n) as [|r rows] eqn:Hdata; [apply prefix_nil|].
  rewrite <- Hdata in *. clear Hdata r rows.
  rewrite written_lift_bind.
  destruct (open_w (output_csv n)) as [[]|e]; [|apply prefix_nil].
  rewrite written_perform_bind, written_bind.
  change (written_rows [OpenForWriting (output_csv n)]) with (@nil (list value)).
  rewrite app_nil_l. unfold writeheader.
  destruct (writerow_cases (output_csv n) (map name (fields n)) _
              (header_conforms (map name (fields n)))) as [-> | [e ->]];
    [|apply prefix_nil].
  rewrite header_cells. cbn [effects fst outcome snd].
  change (written_rows [WriteRow (map VStr (map name (fields n)))])
    with [map VStr (map name (fields n))].
  apply prefix_cons. rewrite written_bind.
  pose proof (write_rows_prefix (output_csv n) _ _ Hconf) as Hrows.
  destruct (outcome (for_each _ (data n) tt)) as [[]|e]; [|by rewrite app_nil_r].
  rewrite written_lift_bind.
  destruct (close_w (output_csv n)) as [[]|e]; by rewrite app_nil_r.
Qed.

Lemma write_csv_unopened n e :
  open_w (output_csv n) = Raised e →
  written_rows (effects (write_csv n)) = [] ∧
  (data n ≠ [] → outcome (write_csv n) = Raised e).
Proof.
  intros Hopen. destruct (data n) as [|r rows] eqn:Hdata.
  - unfold write_csv. by rewrite Hdata.
  - by rewrite (write_csv_open_fails n r rows e Hdata Hopen).
Qed.

Lemma after_output evs n : output_csv (after evs n) = output_csv n.
Proof.
  unfold after. revert n. induction evs as [|[topic msg|] evs IH]; intros n; simpl;
    [done | by rewrite IH | by rewrite IH].
Qed.

Lemma init_output get_message config interval output n :
  outcome (__init__ get_message config interval output) = Returned n →
  output_csv n = output.
Proof.
  intros (s & Hs & ->)%init_outcome. simpl.
  revert Hs. apply (for_each_invariant (fun s => output_csv s = output)); [|done].
  intros s0 sub s1 Hs0 [[_ ->] | (cls & _ & _ & _ & _ & ->)]%subscribe_cases; done.
Qed.

(** C8: the rows the writer receives, after the header, are the rows of the
    table in the order the ticks appended them: for every execution from
    the constructed node, the table is the list of the rows of its ticks in
    tick order, and when the output file can be written, export returns
    after writing the header and then one row per table row in that order.
    Whatever the file system does, what the writer has received is an
    initial part of that sequence; when the file does not open, export
    raises what [open] raised and writes no row at all. *)
Theorem export_preserves_append_order get_message config interval output n0 evs :
  outcome (__init__ get_message config interval output) = Returned n0 →
  ∃ es n, run evs n0 = (es, Returned n) ∧
          data n = samples evs n0 ∧
          (writable output →
           outcome (write_csv n) = Returned tt ∧
           written_rows (effects (write_csv n)) =
           match data n with
           | [] => []
           | _ :: _ => map VStr (map name (fields n))
                       :: map (cells (map name (fields n))) (data n)
           end) ∧
          written_rows (effects (write_csv n))
            `prefix_of` map VStr (map name (fields n))
                        :: map (cells (map name (fields n))) (data n) ∧
          (∀ e, open_w output = Raised e →
                written_rows (effects (write_csv n)) = [] ∧
                (data n ≠ [] → outcome (write_csv n) = Raised e)).
Proof.
  intros Hinit. destruct (run_returns evs n0) as [es Hes].
  exists es, (after evs n0). split; [done|].
  assert (data (after evs n0) = samples evs n0) as Hdata.
  { by rewrite after_data, (init_data _ _ _ _ _ Hinit). }
  assert (output_csv (after evs n0) = output) as Hout.
  { by rewrite after_output, (init_output _ _ _ _ _ Hinit). }
  assert (Forall (conforms (map name (fields (after evs n0)))) (data (after evs n0)))
    as Hconf.
  { rewrite Hdata, after_fields. apply samples_conform. }
  split; [done|]. split_and!.
  - intros Hopen. apply write_csv_written; [done | by rewrite Hout].
  - by apply write_csv_prefix.
  - intros e Hopen. apply write_csv_unopened. by rewrite Hout.
Qed.

(** C9: with an empty table, export logs one informational record and does
    nothing else: no file is opened, no row (not even the header) is
    written, and nothing is logged as an error. *)
Theorem empty_export_writes_nothing (n : node) :
  data n = [] →
  write_csv n = ([Log INFO [Lit "No data to write to CSV."]], Returned tt) ∧
  written_rows (effects (write_csv n)) = [] ∧
  (∀ path, OpenForWriting path ∉ effects (write_csv n)) ∧
  (∀ text, Log ERROR text ∉ effects (write_csv n)).
Proof.
  intros Hdata. unfold write_csv. rewrite Hdata. simpl. split_and!; [done..| |].
  - intros path [?|?%elem_of_nil]%elem_of_cons; done.
  - intros text [?|?%elem_of_nil]%elem_of_cons; done.
Qed.

(** An execution without ticks leaves the table of the constructed node
    empty, whatever messages arrived. *)
Lemma no_tick_no_row get_message config interval output n0 evs :
  outcome (__init__ get_message config interval output) = Returned n0 →
  ticks evs = 0 →
  data (after evs n0) = [].
Proof.
  intros Hinit Hticks. rewrite after_data, (init_data _ _ _ _ _ Hinit). simpl.
  apply length_zero_iff_nil. by rewrite samples_length.
Qed.

(** ** Duplicate output names *)

Lemma cells_sampled n :
  cells (map name (fields n)) (sampled n) =
  map (fun f => from_option (cell n) (VStr "") (last_named (name f) (fields n))) (fields n).
Proof.
  unfold cells. rewrite map_map. apply map_ext. intros f.
  rewrite sampled_lookup. by destruct (last_named (name f) (fields n)).
Qed.

Lemma configured_fields_declared get_message config :
  configured_fields get_message config = declared_fields get_message config.
Proof. reflexivity. Qed.

(** C10: [__init__] keeps fields with equal output names (nothing is
    rejected: the node's fields are all the fields the configuration
    declares for the sources that resolve, in order); the row of a tick maps
    a name to the value of the last field with that name; and the row
    written for that tick, when the output file opens, carries in every
    column the value of the last field named like the column. *)
Theorem duplicate_output_names_last_wins :
  (∀ get_message config interval output,
     (∀ sub, sub ∈ config → ∃ r, get_message (cfg_message_type sub) = Returned r) →
     ∃ es n, __init__ get_message config interval output = (es, Returned n) ∧
             fields n = declared_fields get_message config) ∧
  (∀ n, ∃ es r, record_data n = (es, Returned (set_data n (data n ++ [r]))) ∧
                ∀ nm, r !! nm = cell n <$> last_named nm (fields n)) ∧
  (∀ n, Forall (conforms (map name (fields n))) (data n) →
        writable (output_csv n) →
        ∃ es n', record_data n = (es, Returned n') ∧
                 last (written_rows (effects (write_csv n'))) =
                 Some (map (fun f => from_option (cell n) (VStr "")
                                       (last_named (name f) (fields n))) (fields n))).
Proof.
  split_and!.
  - intros get_message config interval output Hres.
    rewrite init_shape.
    destruct (subscribe_all get_message config Hres
                {| output_csv := output; recorded_subscriptions := ∅;
                   latest_messages := ∅; fields := []; data := []; timer := None |})
      as (es & s & -> & Hfields & _).
    eexists _, _. split; [reflexivity|].
    by rewrite <- configured_fields_declared.
  - intros n. destruct (record_data_appends n) as [es Hes].
    exists es, (sampled n). split; [done | apply sampled_lookup].
  - intros n Hconf Hopen. destruct (record_data_appends n) as [es Hes].
    exists es, (set_data n (data n ++ [sampled n])). split; [done|].
    assert (Forall (conforms (map name (fields n))) (data n ++ [sampled n])) as Hall.
    { apply Forall_app. split; [done|].
      constructor; [apply sampled_conforms | constructor]. }
    destruct (write_csv_written (set_data n (data n ++ [sampled n])) Hall Hopen) as [_ ->].
    simpl. destruct (data n ++ [sampled n]) as [|r rows] eqn:Hrows.
    + by destruct (data n).
    + rewrite <- Hrows, map_app. cbn [map].
      rewrite last_cons, last_snoc. by rewrite cells_sampled.
Qed.

(** ** Extraction misses *)

(** C3, amended: extraction never raises; it returns the value the walk
    resolves to, and [None] when the walk fails.  A resolved value other
    than [None] (zero, false and the empty string among them) is therefore
    never mistaken for a miss; a resolved [None] is. *)
Theorem extraction_returns_value_or_None :
  (∀ msg field_path, ∃ v, outcome (get_field_value msg field_path) = Returned v) ∧
  (∀ msg field_path v,
     outcome (walk msg (split "." field_path)) = Returned v →
     outcome (get_field_value msg field_path) = Returned v) ∧
  (∀ msg field_path e,
     outcome (walk msg (split "." field_path)) = Raised e →
     outcome (get_field_value msg field_path) = Returned VNone) ∧
  (∀ msg field_path v msg' field_path' e,
     outcome (walk msg (split "." field_path)) = Returned v →
     v ≠ VNone →
     outcome (walk msg' (split "." field_path')) = Raised e →
     outcome (get_field_value msg field_path) ≠ outcome (get_field_value msg' field_path')) ∧
  VInt 0 ≠ VNone ∧ VBool false ≠ VNone ∧ VStr "" ≠ VNone.
Proof.
  split_and!; [| | | |discriminate..].
  - apply get_field_value_returns.
  - intros msg field_path v Hv. by rewrite (get_field_value_resolved _ _ _ Hv).
  - apply get_field_value_missed.
  - intros msg field_path v msg' field_path' e Hv Hne He.
    rewrite (get_field_value_resolved _ _ _ Hv), (get_field_value_missed _ _ _ He).
    simpl. congruence.
Qed.

Lemma is_not_None_true v : v ≠ VNone → is_not_None v = true.
Proof. by destruct v. Qed.

Lemma cell_resolved n f v :
  dict_get (latest_messages n) (topic_name f) ≠ VNone →
  outcome (walk (dict_get (latest_messages n) (topic_name f))
             (split "." (field_path f))) = Returned v →
  v ≠ VNone →
  cell n f = v.
Proof.
  intros Hmsg Hwalk Hv. unfold cell.
  rewrite (is_not_None_true _ Hmsg), (get_field_value_resolved _ _ _ Hwalk).
  simpl. by rewrite (is_not_None_true _ Hv).
Qed.

Lemma cells_lookup (fs : list field) (r : row) i g :
  fs !! i = Some g →
  cells (map name fs) r !! i = Some (default (VStr "") (r !! name g)).
Proof.
  intros Hg. unfold cells.
  change (map (fun k => default (VStr "") (r !! k)) (map name fs))
    with ((fun k => default (VStr "") (r !! k)) <$> (name <$> fs)).
  by rewrite !list_lookup_fmap, Hg.
Qed.

Lemma last_written_row n :
  Forall (conforms (map name (fields n))) (data n) →
  writable (output_csv n) →
  last (written_rows (effects (write_csv (set_data n (data n ++ [sampled n]))))) =
  Some (cells (map name (fields n)) (sampled n)).
Proof.
  intros Hconf Hopen.
  assert (Forall (conforms (map name (fields n))) (data n ++ [sampled n])) as Hall.
  { apply Forall_app. split; [done|].
    constructor; [apply sampled_conforms | constructor]. }
  destruct (write_csv_written (set_data n (data n ++ [sampled n])) Hall Hopen) as [_ ->].
  simpl. destruct (data n ++ [sampled n]) as [|r rows] eqn:Hrows.
  - by destruct (data n).
  - rewrite <- Hrows, map_app. cbn [map]. by rewrite last_cons, last_snoc.
Qed.

(** C4, amended: when the latest message of a field's topic is there and
    the field's path resolves in it to a nested object, extraction returns
    that object and [record_data] stores the object itself under the
    field's name; unless a later field has the same name, the row of the
    tick holds the object under that name, and the export of the table,
    when the output file opens, hands the writer a last row with the object
    in every column of that name. *)
Theorem nested_object_is_recorded_as_is (n : node) (f : field)
    (slots : list (string * value)) :
  dict_get (latest_messages n) (topic_name f) ≠ VNone →
  outcome (walk (dict_get (latest_messages n) (topic_name f))
             (split "." (field_path f))) = Returned (VMsg slots) →
  get_field_value (dict_get (latest_messages n) (topic_name f)) (field_path f) =
    ([], Returned (VMsg slots)) ∧
  (∀ r, outcome (record_field n r f) = Returned (<[name f := VMsg slots]> r)) ∧
  (last_named (name f) (fields n) = Some f →
   ∃ es r,
     record_data n = (es, Returned (set_data n (data n ++ [r]))) ∧
     r !! name f = Some (VMsg slots) ∧
     (Forall (conforms (map name (fields n))) (data n) →
      writable (output_csv n) →
      ∃ row_cells,
        last (written_rows (effects (write_csv (set_data n (data n ++ [r]))))) =
          Some row_cells ∧
        ∀ i g, fields n !! i = Some g → name g = name f →
               row_cells !! i = Some (VMsg slots))).
Proof.
  intros Hmsg Hwalk.
  assert (cell n f = VMsg slots) as Hcell by (by apply cell_resolved).
  split_and!.
  - by apply get_field_value_resolved.
  - intros r. by rewrite record_field_outcome, Hcell.
  - intros Hlast. destruct (record_data_appends n) as [es Hes].
    exists es, (sampled n). split; [done|].
    assert (sampled n !! name f = Some (VMsg slots)) as Hrow.
    { rewrite sampled_lookup, Hlast. simpl. by rewrite Hcell. }
    split; [done|]. intros Hconf Hopen.
    exists (cells (map name (fields n)) (sampled n)).
    split; [by apply last_written_row|].
    intros i g Hg Hname. rewrite (cells_lookup _ _ _ _ Hg), Hname, Hrow. done.
Qed.

(** ** Startup *)

(** C5, amended: [__init__] does not look at the interval.  When no call
    of [get_message] raises, it performs the same effects for every
    interval, followed by the creation of the timer with the interval as
    given, and returns a node holding that timer. *)
Theorem interval_is_passed_unchecked get_message config output :
  (∀ sub, sub ∈ config → ∃ r, get_message (cfg_message_type sub) = Returned r) →
  ∃ es s, (∀ p, CreateTimer p ∉ es) ∧
          ∀ interval : Q,
            __init__ get_message config interval output =
            (es ++ [CreateTimer interval], Returned (set_timer s interval)).
Proof.
  intros Hres.
  destruct (subscribe_all get_message config Hres
              {| output_csv := output; recorded_subscriptions := ∅;
                 latest_messages := ∅; fields := []; data := []; timer := None |})
    as (es & s & Hrun & _ & Htimer).
  exists es, s. split; [done|].
  intros interval. by rewrite init_shape, Hrun.
Qed.

(** C6, amended: a source for which [get_message] returns [None] is
    skipped: its iteration logs an error and changes nothing, and
    [__init__] ends as it does on the configuration without that source;
    when no earlier source raises, the error record is the only
    difference between the effects of the two. *)
Theorem unresolved_source_is_skipped get_message before sub rest interval output :
  get_message (cfg_message_type sub) = Returned None →
  (∀ n, subscribe get_message n sub =
        ([Log ERROR [Lit "Could not import message type "; Lit (cfg_message_type sub)]],
         Returned n)) ∧
  outcome (__init__ get_message (before ++ sub :: rest) interval output) =
  outcome (__init__ get_message (before ++ rest) interval output) ∧
  ((∀ b, b ∈ before → ∃ r, get_message (cfg_message_type b) = Returned r) →
   ∃ es1 es2,
     effects (__init__ get_message (before ++ sub :: rest) interval output) =
       es1 ++ Log ERROR [Lit "Could not import message type "; Lit (cfg_message_type sub)]
           :: es2 ∧
     effects (__init__ get_message (before ++ rest) interval output) = es1 ++ es2).
Proof.
  intros Hnone.
  assert (∀ n, subscribe get_message n sub =
               ([Log ERROR [Lit "Could not import message type ";
                            Lit (cfg_message_type sub)]], Returned n)) as Hskip.
  { intros n. unfold subscribe, lift. by rewrite Hnone. }
  split; [done|].
  set (self := {| output_csv := output; recorded_subscriptions := ∅;
                  latest_messages := ∅; fields := []; data := []; timer := None |}).
  pose proof (init_shape get_message (before ++ sub :: rest) interval output) as Hwith.
  pose proof (init_shape get_message (before ++ rest) interval output) as Hwithout.
  fold self in Hwith, Hwithout.
  destruct (for_each_skip (subscribe get_message) sub _ before rest self Hskip)
    as [Hw Hwo].
  rewrite Hw in Hwith. rewrite Hwo in Hwithout. clear Hw Hwo.
  destruct (for_each (subscribe get_message) before self) as [es1 [s1|e1]] eqn:Hbefore.
  - destruct (for_each (subscribe get_message) rest s1) as [es2 [s2|e2]];
      rewrite Hwith, Hwithout; (split; [done|]); intros _.
    + exists es1, (es2 ++ [CreateTimer interval]). simpl.
      by rewrite <- !app_assoc.
    + by exists es1, es2.
  - rewrite Hwith, Hwithout. split; [done|]. intros Hres.
    destruct (subscribe_all get_message before Hres self) as (es & s & Hrun & _).
    congruence.
Qed.

(** An exception raised by [get_message] ends [__init__]: no timer is
    created, and the subscriptions of the earlier sources stay created. *)
Lemma raising_source_aborts get_message before sub rest interval output e :
  (∀ b, b ∈ before → ∃ r, get_message (cfg_message_type b) = Returned r) →
  get_message (cfg_message_type sub) = Raised e →
  ∃ es, __init__ get_message (before ++ sub :: rest) interval output = (es, Raised e) ∧
        es = effects (for_each (subscribe get_message) before
                        {| output_csv := output; recorded_subscriptions := ∅;
                           latest_messages := ∅; fields := []; data := [];
                           timer := None |}) ∧
        (∀ p, CreateTimer p ∉ es).
Proof.
  intros Hres Hraise. rewrite init_shape, for_each_app.
  destruct (subscribe_all get_message before Hres
              {| output_csv := output; recorded_subscriptions := ∅;
                 latest_messages := ∅; fields := []; data := []; timer := None |})
    as (es & s & Hrun & _ & Htimer).
  assert (for_each (subscribe get_message) (sub :: rest) s = ([], Raised e)) as Hsub.
  { cbn [for_each]. unfold subscribe, lift. by rewrite Hraise. }
  rewrite Hrun. unfold mbind at 1, Run_bind at 1. rewrite Hsub.
  exists es. by rewrite app_nil_r.
Qed.

(** * Further properties *)

(** ** Paths *)

Lemma split_cons sep s : ∃ piece pieces, split sep s = piece :: pieces.
Proof.
  destruct (split sep s) as [|piece pieces] eqn:Hsplit; [|by eauto].
  by destruct (split_nonempty sep s).
Qed.

Lemma concat_cons_cons sep (x y : string) l :
  String.concat sep (x :: y :: l) = (x +:+ sep +:+ String.concat sep (y :: l)).
Proof. reflexivity. Qed.

Lemma split_join sep s : String.concat (String sep "") (split sep s) = s.
Proof.
  induction s as [|c s IH]; [done|].
  cbn [split]. destruct (split_cons sep s) as (piece & pieces & Hsplit).
  rewrite Hsplit in *.
  destruct (Ascii.eqb_spec c sep) as [->|Hne].
  - rewrite concat_cons_cons, IH. reflexivity.
  - destruct pieces as [|next pieces].
    + simpl in *. by rewrite IH.
    + rewrite concat_cons_cons in *. rewrite <- IH. reflexivity.
Qed.

Lemma split_length sep s : length (split sep s) = S (occurrences sep s).
Proof.
  induction s as [|c s IH]; [done|].
  cbn [split occurrences]. destruct (split_cons sep s) as (piece & pieces & Hsplit).
  rewrite Hsplit in *.
  destruct (Ascii.eqb c sep); simpl in *; lia.
Qed.

Lemma split_pieces sep s : Forall (fun piece => occurrences sep piece = 0) (split sep s).
Proof.
  induction s as [|c s IH]; [by repeat constructor|].
  cbn [split]. destruct (split_cons sep s) as (piece & pieces & Hsplit).
  rewrite Hsplit in *.
  destruct (Ascii.eqb c sep) eqn:Hc.
  - by constructor.
  - apply Forall_cons in IH as [Hpiece Hpieces].
    constructor; [|done]. simpl. by rewrite Hc.
Qed.

(** X1: splitting a path at its dots loses nothing: the pieces joined by
    dots are the path again, no piece contains a dot, and there is one more
    piece than the path has dots (so the empty path has the one piece ['']
    and adjacent dots give empty pieces). *)
Theorem split_round_trip (field_path : string) :
  String.concat "." (split "." field_path) = field_path ∧
  Forall (fun piece => occurrences "." piece = 0) (split "." field_path) ∧
  length (split "." field_path) = S (occurrences "." field_path).
Proof.
  split_and!; [apply split_join | apply split_pieces | apply split_length].
Qed.

Lemma split_app sep p q :
  split sep (p +:+ String sep q) = split sep p ++ split sep q.
Proof.
  induction p as [|c p IH]; simpl.
  - by rewrite Ascii.eqb_refl.
  - rewrite IH. destruct (split_cons sep p) as (piece & pieces & ->).
    by destruct (Ascii.eqb c sep).
Qed.

Lemma walk_app msg attrs more :
  walk msg (attrs ++ more) = walk msg attrs ≫= fun v => walk v more.
Proof. apply for_each_app. Qed.

Lemma get_field_value_outcome msg field_path :
  outcome (get_field_value msg field_path) =
  match outcome (walk msg (split "." field_path)) with
  | Returned v => Returned v
  | Raised _ => Returned VNone
  end.
Proof.
  destruct (outcome (walk msg (split "." field_path))) as [v|e] eqn:Hwalk.
  - by rewrite (get_field_value_resolved _ _ _ Hwalk).
  - by apply (get_field_value_missed _ _ e).
Qed.

Lemma get_field_value_missed_log msg field_path e :
  outcome (walk msg (split "." field_path)) = Raised e →
  get_field_value msg field_path =
  ([Log ERROR [Lit "Could not get field '"; Lit field_path;
               Lit "' from message on topic '"; Fmt msg; Lit "'"]],
   Returned VNone).
Proof.
  intros Hwalk. unfold get_field_value.
  destruct (walk_cases msg (split "." field_path)) as [[w Hw] | Hw];
    rewrite Hw in *; simpl in *; [congruence | done].
Qed.

(** X2: extraction is silent when the path resolves and logs exactly one
    error record, naming the path and the message, when it does not; it
    performs no other effect. *)
Theorem extraction_logs_only_misses (msg : value) (field_path : string) :
  get_field_value msg field_path =
  match outcome (walk msg (split "." field_path)) with
  | Returned v => ([], Returned v)
  | Raised _ =>
      ([Log ERROR [Lit "Could not get field '"; Lit field_path;
                   Lit "' from message on topic '"; Fmt msg; Lit "'"]],
       Returned VNone)
  end.
Proof.
  destruct (outcome (walk msg (split "." field_path))) as [v|e] eqn:Hwalk.
  - by apply get_field_value_resolved.
  - by apply (get_field_value_missed_log _ _ e).
Qed.

(** X3: extraction follows the dots one at a time: when the path [p]
    resolves to [v], extracting [p.q] from the message gives what
    extracting [q] from [v] gives; when [p] does not resolve, neither does
    [p.q]. *)
Theorem extraction_composes :
  (∀ msg p q v,
     outcome (walk msg (split "." p)) = Returned v →
     outcome (get_field_value msg (p +:+ "." +:+ q)) = outcome (get_field_value v q)) ∧
  (∀ msg p q e,
     outcome (walk msg (split "." p)) = Raised e →
     outcome (get_field_value msg (p +:+ "." +:+ q)) = Returned VNone).
Proof.
  split.
  - intros msg p q v Hp.
    rewrite !get_field_value_outcome.
    change (p +:+ "." +:+ q) with (p +:+ String "." q).
    rewrite split_app, walk_app, outcome_bind, Hp. done.
  - intros msg p q e Hp.
    rewrite get_field_value_outcome.
    change (p +:+ "." +:+ q) with (p +:+ String "." q).
    by rewrite split_app, walk_app, outcome_bind, Hp.
Qed.

(** ** Startup *)

Lemma subscribe_effects get_message s sub r :
  get_message (cfg_message_type sub) = Returned r →
  effects (subscribe get_message s sub) = startup_effect get_message sub.
Proof.
  intros Hr. unfold subscribe, startup_effect, lift. rewrite Hr. by destruct r.
Qed.

Lemma subscribe_all_effects get_message config :
  (∀ sub, sub ∈ config → ∃ r, get_message (cfg_message_type sub) = Returned r) →
  ∀ s, ∃ s', for_each (subscribe get_message) config s =
             (flat_map (startup_effect get_message) config, Returned s').
Proof.
  induction config as [|sub config IH]; intros Hres s.
  - by exists s.
  - destruct (Hres sub) as [r Hr]; [by left|].
    destruct (subscribe_returns get_message s sub r Hr) as (es1 & s1 & Hsub & _).
    destruct (IH (fun x Hx => Hres x (list_elem_of_further _ _ _ Hx)) s1) as [s2 Hrun].
    exists s2. cbn [for_each flat_map].
    rewrite <- (subscribe_effects get_message s sub r Hr).
    rewrite Hsub. unfold mbind, Run_bind. by rewrite Hrun.
Qed.

(** X4: when every type lookup returns, startup performs, in configuration
    order, one [create_subscription] (queue depth 10) per source whose type
    resolves and one error record per source whose type does not, and then
    creates the timer: exactly one timer, last. *)
Theorem startup_trace get_message config interval output :
  (∀ sub, sub ∈ config → ∃ r, get_message (cfg_message_type sub) = Returned r) →
  effects (__init__ get_message config interval output) =
  flat_map (startup_effect get_message) config ++ [CreateTimer interval].
Proof.
  intros Hres. rewrite init_shape.
  destruct (subscribe_all_effects get_message config Hres
              {| output_csv := output; recorded_subscriptions := ∅;
                 latest_messages := ∅; fields := []; data := []; timer := None |})
    as [s ->].
  reflexivity.
Qed.

Lemma subscribe_registry get_message s sub s' :
  outcome (subscribe get_message s sub) = Returned s' →
  latest_messages s' =
    match registered get_message sub with
    | Some _ => <[cfg_topic_name sub := VNone]> (latest_messages s)
    | None => latest_messages s
    end ∧
  recorded_subscriptions s' =
    match registered get_message sub with
    | Some r => <[cfg_topic_name sub := r]> (recorded_subscriptions s)
    | None => recorded_subscriptions s
    end ∧
  fields s' =
    fields s ++ match registered get_message sub with
                | Some _ => collect_fields (cfg_topic_name sub) (cfg_fields sub)
                | None => []
                end ∧
  data s' = data s ∧ output_csv s' = output_csv s ∧ timer s' = timer s.
Proof.
  unfold subscribe, registered, lift.
  destruct (get_message (cfg_message_type sub)) as [[cls|]|e]; simpl; [| |done].
  - intros [= <-]. done.
  - intros [= <-]. by rewrite app_nil_r.
Qed.

Lemma subscribe_loop_registry get_message config :
  ∀ s s', outcome (for_each (subscribe get_message) config s) = Returned s' →
    dom (latest_messages s') =@{gset string}
      dom (latest_messages s) ∪ list_to_set (resolved_topics get_message config) ∧
    dom (recorded_subscriptions s') =@{gset string}
      dom (recorded_subscriptions s) ∪ list_to_set (resolved_topics get_message config) ∧
    (∀ topic, recorded_subscriptions s' !! topic =
              match last_registered get_message topic config with
              | Some r => Some r
              | None => recorded_subscriptions s !! topic
              end) ∧
    fields s' = fields s ++ configured_fields get_message config ∧
    data s' = data s ∧ output_csv s' = output_csv s ∧ timer s' = timer s.
Proof.
  induction config as [|sub config IH]; intros s s'; cbn [for_each].
  - intros [= <-]. simpl. rewrite app_nil_r. split_and!; try done; set_solver.
  - rewrite outcome_bind.
    destruct (outcome (subscribe get_message s sub)) as [s1|e] eqn:Hsub; [|done].
    intros Hrest. apply IH in Hrest as (Hlm & Hrs & Hlast & Hfs & Hd & Ho & Ht).
    apply subscribe_registry in Hsub as (Hlm1 & Hrs1 & Hfs1 & Hd1 & Ho1 & Ht1).
    rewrite Hlm, Hrs, Hfs, Hd, Ho, Ht, Hlm1, Hrs1, Hfs1, Hd1, Ho1, Ht1.
    cbn [resolved_topics configured_fields flat_map].
    fold (resolved_topics get_message config).
    fold (configured_fields get_message config).
    split_and!; try done.
    + destruct (registered get_message sub); [rewrite dom_insert_L|]; set_solver.
    + destruct (registered get_message sub); [rewrite dom_insert_L|]; set_solver.
    + intros topic. rewrite Hlast. cbn [last_registered].
      destruct (last_registered get_message topic config); [done|].
      rewrite Hrs1.
      destruct (String.eqb_spec (cfg_topic_name sub) topic) as [->|Hne].
      * destruct (registered get_message sub); [by rewrite lookup_insert_eq | done].
      * destruct (registered get_message sub); [by rewrite lookup_insert_ne | done].
    + rewrite <- app_assoc. f_equal. unfold registered.
      by destruct (get_message (cfg_message_type sub)) as [[cls|]|e].
Qed.

Lemma configured_fields_topics get_message config f :
  f ∈ configured_fields get_message config →
  topic_name f ∈ resolved_topics get_message config.
Proof.
  unfold configured_fields, resolved_topics, registered.
  induction config as [|sub config IH]; cbn [flat_map]; [by intros ?%elem_of_nil|].
  intros [Hin|Hin]%elem_of_app; apply elem_of_app; [left | right; by apply IH].
  destruct (get_message (cfg_message_type sub)) as [[cls|]|e];
    [|by apply elem_of_nil in Hin..].
  unfold collect_fields in Hin.
  apply list_elem_of_fmap in Hin as (fc & -> & _). simpl. by left.
Qed.

(** X5: the node [__init__] returns has a cache entry and a registry entry
    for exactly the topics of the sources whose type resolved, every cache
    entry is [None], every field it recorded refers to a topic with a cache
    entry, the table is empty, and the output path and the timer interval
    are the parameters' values. *)
Theorem constructed_node_registry get_message config interval output n :
  outcome (__init__ get_message config interval output) = Returned n →
  dom (latest_messages n) =@{gset string} list_to_set (resolved_topics get_message config) ∧
  dom (recorded_subscriptions n) =@{gset string} dom (latest_messages n) ∧
  (∀ topic, topic ∈ dom (latest_messages n) → latest_messages n !! topic = Some VNone) ∧
  (∀ f, f ∈ fields n → topic_name f ∈ dom (latest_messages n)) ∧
  data n = [] ∧ output_csv n = output ∧ timer n = Some interval.
Proof.
  intros Hinit.
  pose proof (fun topic => init_latest _ _ _ _ _ topic Hinit) as Hnone.
  apply init_outcome in Hinit as (s & Hs & ->).
  apply subscribe_loop_registry in Hs as (Hlm & Hrs & _ & Hfs & Hd & Ho & _).
  simpl in *.
  rewrite dom_empty_L, (left_id_L ∅ (∪)) in Hlm.
  rewrite dom_empty_L, (left_id_L ∅ (∪)) in Hrs.
  split_and!; try done.
  - congruence.
  - intros topic [v Hv]%elem_of_dom. specialize (Hnone topic).
    unfold dict_get in Hnone. rewrite Hv in *. simpl in Hnone. by subst.
  - intros f Hf. rewrite Hfs in Hf. apply configured_fields_topics in Hf.
    rewrite Hlm. by apply elem_of_list_to_set.
Qed.

(** X6: when two sources of the configuration name the same topic, both
    subscriptions are created, but the registry keeps one record per topic:
    the one of the last such source whose type resolved. *)
Theorem registry_keeps_last_subscription get_message config interval output n topic :
  outcome (__init__ get_message config interval output) = Returned n →
  recorded_subscriptions n !! topic = last_registered get_message topic config.
Proof.
  intros (s & Hs & ->)%init_outcome.
  apply subscribe_loop_registry in Hs as (_ & _ & Hlast & _).
  simpl in *. rewrite Hlast.
  destruct (last_registered get_message topic config); [done | apply lookup_empty].
Qed.

(** ** Executions *)

Lemma Run_left_id {A B} (a : A) (k : A -> Run B) : mret a ≫= k = k a.
Proof. unfold mbind, Run_bind, mret, Run_ret. by destruct (k a). Qed.

Lemma for_each_effects {S A} (body : S -> A -> Run S) (l : A -> list effect)
    (g : S -> A -> S) :
  (∀ s x, body s x = (l x, Returned (g s x))) →
  ∀ xs s, for_each body xs s = (flat_map l xs, Returned (fold_left g xs s)).
Proof.
  intros Hbody xs. induction xs as [|x xs IH]; intros s; cbn [for_each flat_map fold_left].
  - done.
  - rewrite Hbody. unfold mbind, Run_bind. by rewrite IH.
Qed.

Lemma after_app evs1 evs2 n : after (evs1 ++ evs2) n = after evs2 (after evs1 n).
Proof. apply fold_left_app. Qed.

Lemma after_static evs n :
  output_csv (after evs n) = output_csv n ∧
  timer (after evs n) = timer n ∧
  recorded_subscriptions (after evs n) = recorded_subscriptions n.
Proof.
  unfold after. revert n. induction evs as [|[topic msg|] evs IH]; intros n; simpl;
    [done | apply (IH (message_callback n msg topic))
          | apply (IH (set_data n (data n ++ [sampled n])))].
Qed.

Lemma samples_no_ticks evs n : ticks evs = 0 → samples evs n = [].
Proof.
  intros Hticks. apply length_zero_iff_nil. by rewrite samples_length.
Qed.

(** X7: nothing that happens after startup changes the configuration of
    the node: over any execution the field list, the output path, the timer
    and the subscription registry stay as they were, and without a tick the
    table stays as it was. *)
Theorem execution_keeps_configuration (evs : list event) (n : node) :
  ∃ es n', run evs n = (es, Returned n') ∧
           fields n' = fields n ∧
           output_csv n' = output_csv n ∧
           timer n' = timer n ∧
           recorded_subscriptions n' = recorded_subscriptions n ∧
           (ticks evs = 0 → data n' = data n).
Proof.
  destruct (run_returns evs n) as [es Hes].
  destruct (after_static evs n) as (Ho & Ht & Hr).
  exists es, (after evs n). split_and!; try done.
  - apply after_fields.
  - intros Hticks. by rewrite after_data, samples_no_ticks, app_nil_r.
Qed.

Lemma record_field_effects n r f :
  record_field n r f = (miss_log n f, Returned (<[name f := cell n f]> r)).
Proof.
  unfold record_field, miss_log, cell.
  destruct (is_not_None (dict_get (latest_messages n) (topic_name f))); [|done].
  destruct (outcome (walk (dict_get (latest_messages n) (topic_name f))
                       (split "." (field_path f)))) as [v|e] eqn:Hwalk.
  - rewrite (get_field_value_resolved _ _ _ Hwalk).
    unfold mbind, Run_bind, outcome. cbn [snd]. by destruct (is_not_None v).
  - by rewrite (get_field_value_missed_log _ _ _ Hwalk).
Qed.

(** X8: the effects of a tick are error records only: one for each field
    whose topic has a message in which the field's path does not resolve,
    in field order, and none for a field whose topic has no message yet or
    whose path resolves (also to [None]). *)
Theorem tick_logs_one_error_per_miss (n : node) :
  effects (record_data n) = flat_map (miss_log n) (fields n).
Proof.
  unfold record_data.
  rewrite (for_each_effects (record_field n) (miss_log n)
             (fun r f => <[name f := cell n f]> r)) by apply record_field_effects.
  unfold mbind, Run_bind. simpl. by rewrite app_nil_r.
Qed.

Lemma cell_depends_on_topic n n' f :
  dict_get (latest_messages n') (topic_name f) = dict_get (latest_messages n) (topic_name f) →
  cell n' f = cell n f.
Proof. unfold cell. by intros ->. Qed.

(** X9: a message on one topic does not change what a tick records for a
    field of another topic: the rows a tick builds before and after the
    message agree on every column decided by a field of another topic. *)
Theorem other_topics_do_not_matter (n : node) (topic : string) (msg : value)
    (nm : string) (f : field) :
  last_named nm (fields n) = Some f →
  topic_name f ≠ topic →
  ∃ es es' r r',
    record_data n = (es, Returned (set_data n (data n ++ [r]))) ∧
    record_data (message_callback n msg topic) =
      (es', Returned (set_data (message_callback n msg topic) (data n ++ [r']))) ∧
    r' !! nm = r !! nm.
Proof.
  intros Hlast Hne.
  destruct (record_data_appends n) as [es Hes].
  destruct (record_data_appends (message_callback n msg topic)) as [es' Hes'].
  exists es, es', (sampled n), (sampled (message_callback n msg topic)).
  split_and!; [done..|].
  rewrite !sampled_lookup. simpl. rewrite Hlast. simpl. f_equal.
  apply cell_depends_on_topic. unfold dict_get. simpl.
  by rewrite lookup_insert_ne.
Qed.

(** X10: what a callback stores is what the next tick samples: after a
    message (an object, not [None]) on the topic of a field, the row of the
    next tick holds, under the field's name, the value the field's path
    resolves to in that message, provided that value is not [None] and no
    later field has the same name. *)
Theorem update_is_sampled (n : node) (f : field) (msg v : value) :
  last_named (name f) (fields n) = Some f →
  msg ≠ VNone →
  outcome (walk msg (split "." (field_path f))) = Returned v →
  v ≠ VNone →
  ∃ es r,
    record_data (message_callback n msg (topic_name f)) =
      (es, Returned (set_data (message_callback n msg (topic_name f)) (data n ++ [r]))) ∧
    r !! name f = Some v.
Proof.
  intros Hlast Hmsg Hwalk Hv.
  destruct (record_data_appends (message_callback n msg (topic_name f))) as [es Hes].
  exists es, (sampled (message_callback n msg (topic_name f))). split; [done|].
  rewrite sampled_lookup. simpl. rewrite Hlast. simpl. f_equal.
  assert (dict_get (latest_messages (message_callback n msg (topic_name f)))
            (topic_name f) = msg) as Hget.
  { unfold dict_get. simpl. by rewrite lookup_insert_eq. }
  apply cell_resolved; by rewrite ?Hget.
Qed.

Lemma message_callback_twice n topic first second :
  message_callback (message_callback n first topic) second topic =
  message_callback n second topic.
Proof.
  unfold message_callback, set_latest_messages. simpl. by rewrite insert_insert_eq.
Qed.

(** X11: a message that is followed by another message on the same topic
    before anything else happens leaves no trace: the execution performs
    the same effects and ends in the same node as without it. *)
Theorem superseded_message_leaves_no_trace (topic : string) (first second : value)
    (evs : list event) (n : node) :
  run (Message topic first :: Message topic second :: evs) n =
  run (Message topic second :: evs) n.
Proof.
  unfold run. cbn [for_each step].
  rewrite !Run_left_id. unfold create_callback.
  by rewrite message_callback_twice.
Qed.

Lemma samples_replicate N n : samples (replicate N Tick) n = replicate N (sampled n).
Proof.
  induction N as [|N IH]; simpl; [done|].
  by rewrite samples_data_irrelevant, IH.
Qed.

Lemma after_ticks_latest N n :
  latest_messages (after (replicate N Tick) n) = latest_messages n.
Proof.
  unfold after. revert n. induction N as [|N IH]; intros n; simpl; [done|].
  by rewrite IH.
Qed.

(** X12: ticks do not consume the cache: any number of consecutive ticks
    append that many copies of the same row and leave the cached messages
    in place. *)
Theorem ticks_without_messages_repeat_the_row (N : nat) (n : node) :
  ∃ es n' r, run (replicate N Tick) n = (es, Returned n') ∧
             data n' = data n ++ replicate N r ∧
             latest_messages n' = latest_messages n.
Proof.
  destruct (run_returns (replicate N Tick) n) as [es Hes].
  exists es, (after (replicate N Tick) n), (sampled n). split_and!; [done| |].
  - by rewrite after_data, samples_replicate.
  - apply after_ticks_latest.
Qed.

(** X13: the table is append-only: the rows present at any point of an
    execution are still there, unchanged and in the same positions, at any
    later point. *)
Theorem table_is_append_only (evs more : list event) (n : node) :
  ∃ es n1 es' n2,
    run evs n = (es, Returned n1) ∧
    run (evs ++ more) n = (es', Returned n2) ∧
    data n `prefix_of` data n1 ∧
    data n1 `prefix_of` data n2.
Proof.
  destruct (run_returns evs n) as [es Hes].
  destruct (run_returns (evs ++ more) n) as [es' Hes'].
  exists es, (after evs n), es', (after (evs ++ more) n). split_and!; [done..| |].
  - rewrite after_data. by eexists.
  - rewrite after_app, (after_data more). by eexists.
Qed.

(** ** Export *)

Lemma reachable_conforms get_message config interval output n0 evs :
  outcome (__init__ get_message config interval output) = Returned n0 →
  data (after evs n0) = samples evs n0 ∧
  Forall (conforms (map name (fields (after evs n0)))) (data (after evs n0)).
Proof.
  intros Hinit.
  assert (data (after evs n0) = samples evs n0) as Hdata.
  { by rewrite after_data, (init_data _ _ _ _ _ Hinit). }
  split; [done|]. rewrite Hdata, after_fields. apply samples_conform.
Qed.

Lemma cells_length fieldnames r : length (cells fieldnames r) = length fieldnames.
Proof. apply length_map. Qed.

Lemma reachable_output get_message config interval output n0 evs :
  outcome (__init__ get_message config interval output) = Returned n0 →
  output_csv (after evs n0) = output.
Proof. intros Hinit. by rewrite after_output, (init_output _ _ _ _ _ Hinit). Qed.

(** X14: every row the export hands to the writer, the header included,
    has exactly one cell per configured field, in every state the node can
    reach. *)
Theorem written_rows_have_one_cell_per_field get_message config interval output n0 evs :
  outcome (__init__ get_message config interval output) = Returned n0 →
  ∃ es n, run evs n0 = (es, Returned n) ∧
          Forall (fun row_cells => length row_cells = length (fields n0))
            (written_rows (effects (write_csv n))).
Proof.
  intros Hinit. destruct (run_returns evs n0) as [es Hes].
  exists es, (after evs n0). split; [done|].
  destruct (reachable_conforms _ _ _ _ _ evs Hinit) as [_ Hconf].
  destruct (write_csv_prefix _ Hconf) as [more Hfull].
  rewrite after_fields in Hfull.
  assert (Forall (fun row_cells => length row_cells = length (fields n0))
            (map VStr (map name (fields n0))
               :: map (cells (map name (fields n0))) (data (after evs n0)))) as Hall.
  { constructor; [by rewrite !length_map|].
    apply Forall_fmap, Forall_forall. intros r' _. simpl.
    by rewrite cells_length, length_map. }
  rewrite Hfull in Hall. by apply Forall_app in Hall as [? _].
Qed.

Lemma ticks_samples evs n : ticks evs ≠ 0 → ∃ r rows, samples evs n = r :: rows.
Proof.
  intros Hticks. destruct (samples evs n) as [|r rows] eqn:Hs; [|by eauto].
  apply (f_equal length) in Hs. rewrite samples_length in Hs. done.
Qed.


(** ** The process *)

Lemma spin_run evs n : spin evs n = (effects (run evs n), after evs n, None).
Proof.
  revert n. induction evs as [|e evs IH]; intros n; [done|].
  cbn [spin]. unfold run, after. cbn [for_each fold_left].
  rewrite effects_bind, (Run_eta (step n e)), step_outcome. cbn [outcome snd].
  fold (run evs (after_event n e)). fold (after evs (after_event n e)).
  by rewrite IH.
Qed.

Lemma node_effects_main es :
  node_effects (RclpyInit :: map Node es ++ [DestroyNode; RclpyShutdown]) = es.
Proof.
  unfold node_effects.
  induction es as [|e es IH]; [done|]. simpl in *. by f_equal.
Qed.

Lemma init_returns get_message config interval output :
  (∀ sub, sub ∈ config → ∃ r, get_message (cfg_message_type sub) = Returned r) →
  ∃ n0, __init__ get_message config interval output =
        (flat_map (startup_effect get_message) config ++ [CreateTimer interval], Returned n0).
Proof.
  intros Hres. rewrite init_shape.
  destruct (subscribe_all_effects get_message config Hres
              {| output_csv := output; recorded_subscriptions := ∅;
                 latest_messages := ∅; fields := []; data := []; timer := None |})
    as [s ->].
  by eexists.
Qed.

Lemma write_csv_empty n :
  data n = [] → write_csv n = ([Log INFO [Lit "No data to write to CSV."]], Returned tt).
Proof. intros Hdata. unfold write_csv. by rewrite Hdata. Qed.

(** X16: when startup succeeds and the export can open its file (or no
    tick fired, so that it opens none), [main] exports exactly once, after
    the last callback and whichever way [spin] ends, then destroys the node
    and shuts rclpy down; a [KeyboardInterrupt] is swallowed, any other
    exception that ended [spin] is raised again after the export and the
    shutdown.  When ticks fired and [open] raises, [main] ends with that
    exception instead, whatever ended [spin], and neither [destroy_node]
    nor [rclpy.shutdown] is called. *)
Theorem main_exports_once get_message config interval output evs ending :
  (∀ sub, sub ∈ config → ∃ r, get_message (cfg_message_type sub) = Returned r) →
  ∃ n0 n,
    outcome (__init__ get_message config interval output) = Returned n0 ∧
    outcome (run evs n0) = Returned n ∧
    (writable output ∨ ticks evs = 0 →
     main get_message config interval output evs ending =
     (RclpyInit
        :: map Node (effects (__init__ get_message config interval output)
                     ++ effects (run evs n0) ++ effects (write_csv n))
        ++ [DestroyNode; RclpyShutdown],
      match ending with
      | SpinRaised e => Raised e
      | KeyboardInterrupt | SpinReturned => Returned tt
      end)) ∧
    (∀ e, open_w output = Raised e → ticks evs ≠ 0 →
          main get_message config interval output evs ending =
          (RclpyInit
             :: map Node (effects (__init__ get_message config interval output)
                          ++ effects (run evs n0)),
           Raised e)).
Proof.
  intros Hres. destruct (init_returns get_message config interval output Hres) as [n0 Hinit].
  exists n0, (after evs n0). rewrite Hinit. split; [done|].
  split; [apply run_outcome|].
  assert (outcome (__init__ get_message config interval output) = Returned n0) as Hinit'
    by (by rewrite Hinit).
  destruct (reachable_conforms _ _ _ _ _ evs Hinit') as [Hdata Hconf].
  pose proof (reachable_output _ _ _ _ _ evs Hinit') as Hout.
  split.
  - intros Hcan. unfold main. rewrite Hinit, spin_run.
    assert (outcome (write_csv (after evs n0)) = Returned tt) as Hret.
    { destruct Hcan as [Hopen|Hticks].
      - rewrite <- Hout in Hopen. by destruct (write_csv_written _ Hconf Hopen).
      - rewrite write_csv_empty; [done|]. by rewrite Hdata, samples_no_ticks. }
    rewrite (Run_eta (write_csv (after evs n0))), Hret.
    cbn [effects fst outcome snd]. by destruct ending.
  - intros e Hopen Hticks. unfold main. rewrite Hinit, spin_run.
    destruct (ticks_samples evs n0 Hticks) as (r & rows & Hrows).
    rewrite Hrows in Hdata. rewrite <- Hout in Hopen.
    rewrite (write_csv_open_fails _ r rows e Hdata Hopen).
    cbn [effects fst]. by rewrite app_nil_r.
Qed.

Lemma written_rows_startup get_message config interval :
  written_rows (flat_map (startup_effect get_message) config ++ [CreateTimer interval]) = [].
Proof.
  rewrite written_rows_app. simpl. rewrite app_nil_r.
  induction config as [|sub config IH]; [done|].
  cbn [flat_map]. rewrite written_rows_app, IH, app_nil_r.
  unfold startup_effect.
  by destruct (get_message (cfg_message_type sub)) as [[cls|]|e].
Qed.

Lemma written_rows_tick n : written_rows (effects (record_data n)) = [].
Proof.
  unfold record_data.
  rewrite (for_each_effects (record_field n) (miss_log n)
             (fun r f => <[name f := cell n f]> r)) by apply record_field_effects.
  unfold mbind, Run_bind. simpl. rewrite app_nil_r.
  induction (fields n) as [|f fs IH]; [done|].
  cbn [flat_map]. rewrite written_rows_app, IH, app_nil_r.
  unfold miss_log. destruct (is_not_None _); [|done].
  by destruct (outcome _).
Qed.

Lemma written_rows_run evs n : written_rows (effects (run evs n)) = [].
Proof.
  revert n. induction evs as [|e evs IH]; intros n; [done|].
  unfold run. cbn [for_each]. rewrite effects_bind, step_outcome, written_rows_app.
  fold (run evs (after_event n e)). rewrite IH, app_nil_r.
  destruct e as [topic msg|]; [done | apply written_rows_tick].
Qed.

Lemma node_effects_nodes es : node_effects (RclpyInit :: map Node es) = es.
Proof.
  unfold node_effects.
  induction es as [|e es IH]; [done|]. simpl in *. by f_equal.
Qed.

(** X17: over its whole life the process hands the CSV writer, when the
    export can open its file, the header followed by one row per tick, in
    tick order, and nothing at all when no tick fired; when [open] raises,
    the writer receives nothing.  Startup and the callbacks write no row. *)
Theorem main_writes_the_sampled_rows get_message config interval output evs ending :
  (∀ sub, sub ∈ config → ∃ r, get_message (cfg_message_type sub) = Returned r) →
  ∃ n0,
    outcome (__init__ get_message config interval output) = Returned n0 ∧
    (writable output →
     written_rows (node_effects (main get_message config interval output evs ending).1) =
     match samples evs n0 with
     | [] => []
     | _ :: _ => map VStr (map name (fields n0))
                 :: map (cells (map name (fields n0))) (samples evs n0)
     end) ∧
    (∀ e, open_w output = Raised e →
          written_rows
            (node_effects (main get_message config interval output evs ending).1) = []).
Proof.
  intros Hres. destruct (init_returns get_message config interval output Hres) as [n0 Hinit].
  exists n0. rewrite Hinit. split; [done|].
  assert (outcome (__init__ get_message config interval output) = Returned n0) as Hinit'
    by (by rewrite Hinit).
  destruct (reachable_conforms _ _ _ _ _ evs Hinit') as [Hdata Hconf].
  pose proof (reachable_output _ _ _ _ _ evs Hinit') as Hout.
  split.
  - intros Hopen. rewrite <- Hout in Hopen.
    destruct (write_csv_written _ Hconf Hopen) as [Hret Hrows].
    unfold main. rewrite Hinit, spin_run.
    rewrite (Run_eta (write_csv (after evs n0))), Hret. cbn [fst].
    rewrite node_effects_main.
    rewrite (written_rows_app (_ ++ [CreateTimer interval])).
    rewrite (written_rows_app (effects (run evs n0))).
    rewrite written_rows_startup, written_rows_run, Hrows, Hdata, after_fields.
    reflexivity.
  - intros e Hopen. rewrite <- Hout in Hopen.
    destruct (write_csv_unopened _ _ Hopen) as [Hnone Hraise].
    unfold main. rewrite Hinit, spin_run.
    destruct (write_csv (after evs n0)) as [es2 [[]|e2]] eqn:Hwrite;
      cbn [fst effects] in *.
    + rewrite node_effects_main.
      rewrite (written_rows_app (_ ++ [CreateTimer interval])).
      rewrite (written_rows_app (effects (run evs n0))).
      by rewrite written_rows_startup, written_rows_run, Hnone.
    + rewrite node_effects_nodes.
      rewrite (written_rows_app (_ ++ [CreateTimer interval])).
      rewrite (written_rows_app (effects (run evs n0))).
      by rewrite written_rows_startup, written_rows_run, Hnone.
Qed.

(** X18: when a type lookup raises during startup, [main] ends with that
    exception right there: the callbacks never run, nothing is exported, and
    neither [destroy_node] nor [rclpy.shutdown] is called. *)
Theorem main_startup_failure get_message before sub rest interval output evs ending e :
  (∀ b, b ∈ before → ∃ r, get_message (cfg_message_type b) = Returned r) →
  get_message (cfg_message_type sub) = Raised e →
  main get_message (before ++ sub :: rest) interval output evs ending =
  (RclpyInit :: map Node (flat_map (startup_effect get_message) before), Raised e).
Proof.
  intros Hres Hraise. unfold main. rewrite init_shape, for_each_app.
  destruct (subscribe_all_effects get_message before Hres
              {| output_csv := output; recorded_subscriptions := ∅;
                 latest_messages := ∅; fields := []; data := []; timer := None |})
    as [s Hrun].
  assert (for_each (subscribe get_message) (sub :: rest) s = ([], Raised e)) as Hsub.
  { cbn [for_each]. unfold subscribe, lift. by rewrite Hraise. }
  rewrite Hrun. unfold mbind at 1, Run_bind at 1. rewrite Hsub.
  by rewrite app_nil_r.
Qed.

End Node.

(** * Concrete runs

    The witnesses, counterexamples and examples below run the node with
    the number attributes as built-in attributes and with the demo file
    system. *)

#[local] Existing Instance python_numbers.
#[local] Existing Instance demo_files.

(** ** Witnesses and counterexamples of the specification properties *)

(** C1, as stated, fails: with two fields named ["v"] the row of a tick has
    one entry for the two fields. *)
Lemma duplicate_names_share_one_entry :
  let n := constructed (record_data
             (message_callback (message_callback duplicate_node (demo_odom 4) "/odom")
                (VMsg [("data", VInt 9)]) "/count")) in
  length (fields n) = 2 ∧
  map (fun r => size r) (data n) = [1] ∧
  map map_to_list (data n) = [[("v", VInt 9)]].
Proof. vm_compute. split_and!; reflexivity. Qed.

Lemma row_keys_are_the_configured_names_witness :
  ∃ es r, record_data (message_callback demo_node (demo_odom 2) "/odom") =
            (es, Returned (set_data (message_callback demo_node (demo_odom 2) "/odom")
                             (data demo_node ++ [r]))) ∧
          size r = length (fields demo_node).
Proof.
  destruct (row_keys_are_the_configured_names
              (message_callback demo_node (demo_odom 2) "/odom"))
    as (es & r & Htick & _ & _ & _ & _ & Hdistinct).
  exists es, r. split; [exact Htick|].
  apply Hdistinct. vm_compute. repeat constructor; set_solver.
Defined.


Lemma export_preserves_append_order_witness :
  ∃ es n,
    run [Message "/odom" (demo_odom 1); Tick; Message "/odom" (demo_odom 2); Tick; Tick]
        demo_node = (es, Returned n) ∧
    data n = samples [Message "/odom" (demo_odom 1); Tick;
                      Message "/odom" (demo_odom 2); Tick; Tick] demo_node ∧
    outcome (write_csv n) = Returned tt ∧
    written_rows (effects (write_csv n)) =
    match data n with
    | [] => []
    | _ :: _ => map VStr (map name (fields n))
                :: map (cells (map name (fields n))) (data n)
    end.
Proof.
  destruct (export_preserves_append_order demo_get_message demo_config (1 # 20)
              "output.csv" demo_node
              [Message "/odom" (demo_odom 1); Tick; Message "/odom" (demo_odom 2); Tick; Tick])
    as (es & n & Hrun & Hdata & Hopens & _).
  - vm_compute. reflexivity.
  - exists es, n. split; [exact Hrun|]. split; [exact Hdata|].
    apply Hopens. file_is_writable.
Defined.

Lemma empty_export_writes_nothing_witness :
  write_csv demo_node = ([Log INFO [Lit "No data to write to CSV."]], Returned tt) ∧
  written_rows (effects (write_csv demo_node)) = [] ∧
  (∀ path, OpenForWriting path ∉ effects (write_csv demo_node)) ∧
  (∀ text, Log ERROR text ∉ effects (write_csv demo_node)).
Proof.
  apply (empty_export_writes_nothing demo_node). vm_compute. reflexivity.
Defined.

Lemma duplicate_output_names_witness :
  ∃ es n, __init__ demo_get_message duplicate_config (1 # 20) "output.csv" = (es, Returned n) ∧
          fields n = declared_fields demo_get_message duplicate_config.
Proof.
  destruct duplicate_output_names_last_wins as (Hinit & _).
  apply Hinit. intros sub Hsub.
  each_subscription Hsub.
Defined.

(** C3, as stated, fails: a field that legitimately holds [None] and a
    path that does not resolve give the same result, [None]. *)
Lemma missing_is_not_distinct_from_None :
  outcome (walk (VMsg [("x", VNone)]) (split "." "x")) = Returned VNone ∧
  outcome (walk (VMsg []) (split "." "x")) = Raised AttributeError ∧
  outcome (get_field_value (VMsg [("x", VNone)]) "x") =
  outcome (get_field_value (VMsg []) "x").
Proof. vm_compute. auto. Qed.

Lemma extraction_returns_value_or_None_witness :
  outcome (get_field_value (VMsg [("data", VInt 0)]) "data") = Returned (VInt 0) ∧
  outcome (get_field_value (VMsg [("data", VInt 0)]) "data") ≠
  outcome (get_field_value (VMsg [("data", VInt 0)]) "datum").
Proof.
  destruct extraction_returns_value_or_None as (_ & Hresolved & _ & Hdistinct & _).
  split.
  - apply Hresolved. vm_compute. reflexivity.
  - apply (Hdistinct _ _ (VInt 0) _ _ AttributeError).
    + vm_compute. reflexivity.
    + discriminate.
    + vm_compute. reflexivity.
Defined.

(** C4, as stated, fails: with the path ["pose"] resolving to a nested
    object, the row records that object, not the empty placeholder, and the
    writer receives the object. *)
Lemma nested_object_is_not_a_miss :
  let n := constructed (record_data (message_callback demo_node (demo_odom 3) "/odom")) in
  (r ← last (data n); r !! "pose") =
    Some (VMsg [("position", VMsg [("x", VInt 3); ("y", VInt 0)])]) ∧
  (r ← last (data n); r !! "pose") ≠ Some (VStr "") ∧
  last (written_rows (effects (write_csv n))) =
    Some [VInt 3; VMsg [("position", VMsg [("x", VInt 3); ("y", VInt 0)])]; VStr ""].
Proof. vm_compute. split_and!; [reflexivity | discriminate | reflexivity]. Qed.

Lemma nested_object_is_recorded_witness :
  let n := message_callback demo_node (demo_odom 3) "/odom" in
  let f := {| name := "pose"; topic_name := "/odom"; field_path := "pose" |} in
  let slots := [("position", VMsg [("x", VInt 3); ("y", VInt 0)])] in
  get_field_value (dict_get (latest_messages n) (topic_name f)) (field_path f) =
    ([], Returned (VMsg slots)) ∧
  ∃ es r row_cells,
    record_data n = (es, Returned (set_data n (data n ++ [r]))) ∧
    r !! name f = Some (VMsg slots) ∧
    last (written_rows (effects (write_csv (set_data n (data n ++ [r]))))) =
      Some row_cells ∧
    row_cells !! 1 = Some (VMsg slots).
Proof.
  intros n f slots.
  destruct (nested_object_is_recorded_as_is n f slots) as (Hget & _ & Hrow).
  - discriminate.
  - vm_compute. reflexivity.
  - split; [exact Hget|].
    destruct Hrow as (es & r & Htick & Hr & Hwritten); [vm_compute; reflexivity|].
    destruct Hwritten as (row_cells & Hlast & Hcolumn);
      [constructor | file_is_writable |].
    exists es, r, row_cells. split_and!; [exact Htick | exact Hr | exact Hlast |].
    apply (Hcolumn 1 f); reflexivity.
Defined.

(** C5, as stated, fails: with an interval of zero [__init__] creates the
    subscriptions, asks for the timer with that interval and returns the
    node; with a negative interval it reaches the same call, after the same
    subscriptions. *)
Lemma nonpositive_interval_is_not_rejected :
  __init__ demo_get_message demo_config 0 "output.csv" =
    ([CreateSubscription (MsgClass "nav_msgs/msg/Odometry") "/odom" 10;
      CreateSubscription (MsgClass "std_msgs/msg/Int32") "/count" 10;
      CreateTimer 0],
     Returned (set_timer demo_node 0)) ∧
  effects (__init__ demo_get_message demo_config (-1 # 20) "output.csv") =
    [CreateSubscription (MsgClass "nav_msgs/msg/Odometry") "/odom" 10;
     CreateSubscription (MsgClass "std_msgs/msg/Int32") "/count" 10;
     CreateTimer (-1 # 20)].
Proof. vm_compute. split; reflexivity. Qed.

Lemma interval_is_passed_unchecked_witness :
  ∃ es s, (∀ p, CreateTimer p ∉ es) ∧
          ∀ interval : Q,
            __init__ demo_get_message demo_config interval "output.csv" =
            (es ++ [CreateTimer interval], Returned (set_timer s interval)).
Proof.
  apply (interval_is_passed_unchecked demo_get_message demo_config "output.csv").
  intros sub Hsub.
  each_subscription Hsub.
Defined.

(** C6, as stated, fails: with a source whose type does not resolve between
    two that do, [__init__] logs an error, creates the subscriptions of the
    other two and the timer, and returns the node of the configuration
    without that source. *)
Lemma unresolved_source_does_not_abort :
  __init__ demo_get_message demo_config_unresolved (1 # 20) "output.csv" =
    ([CreateSubscription (MsgClass "nav_msgs/msg/Odometry") "/odom" 10;
      Log ERROR [Lit "Could not import message type "; Lit "sensor_msgs/msg/Imuu"];
      CreateSubscription (MsgClass "std_msgs/msg/Int32") "/count" 10;
      CreateTimer (1 # 20)],
     Returned demo_node).
Proof. vm_compute. reflexivity. Qed.

Lemma unresolved_source_is_skipped_witness :
  outcome (__init__ demo_get_message demo_config_unresolved (1 # 20) "output.csv") =
  outcome (__init__ demo_get_message demo_config (1 # 20) "output.csv").
Proof.
  apply (unresolved_source_is_skipped demo_get_message
           [ {| cfg_topic_name := "/odom"; cfg_message_type := "nav_msgs/msg/Odometry";
                cfg_fields := [ {| cfg_name := "x"; cfg_field_path := "pose.position.x" |};
                                {| cfg_name := "pose"; cfg_field_path := "pose" |} ] |} ]
           {| cfg_topic_name := "/imu"; cfg_message_type := "sensor_msgs/msg/Imuu";
              cfg_fields := [ {| cfg_name := "ax";
                                 cfg_field_path := "linear_acceleration.x" |} ] |}
           [ {| cfg_topic_name := "/count"; cfg_message_type := "std_msgs/msg/Int32";
                cfg_fields := [ {| cfg_name := "count"; cfg_field_path := "data" |} ] |} ]
           (1 # 20) "output.csv").
  vm_compute. reflexivity.
Defined.

(** ** Examples *)

Example split_path : split "." "pose.position.x" = ["pose"; "position"; "x"].
Proof. reflexivity. Qed.

Example split_empty : split "." "" = [""].
Proof. reflexivity. Qed.

Example split_gap : split "." "a..b." = ["a"; ""; "b"; ""].
Proof. reflexivity. Qed.

Example extract_leaf :
  get_field_value (VMsg [("x", VMsg [("y", VInt 5)])]) "x.y" = ([], Returned (VInt 5)).
Proof. reflexivity. Qed.

Example extract_miss :
  get_field_value (VMsg [("x", VMsg [("y", VInt 5)])]) "x.z" =
  ([Log ERROR [Lit "Could not get field '"; Lit "x.z"; Lit "' from message on topic '";
               Fmt (VMsg [("x", VMsg [("y", VInt 5)])]); Lit "'"]],
   Returned VNone).
Proof. reflexivity. Qed.

Example extract_empty_path :
  outcome (get_field_value (VMsg [("x", VInt 5)]) "") = Returned VNone.
Proof. reflexivity. Qed.

(** No update ever arrives: after one tick the export is the header and one
    row with an empty [col1]. *)
Example scenario_no_update :
  written_rows (effects (write_csv (after [Tick] scenario_node))) =
  [[VStr "col1"]; [VStr ""]].
Proof. vm_compute. reflexivity. Qed.

(** [A] is updated with 5 before the first tick and with 7 before the
    second. *)
Example scenario_two_updates :
  written_rows
    (effects (write_csv (after [Message "A" (scenario_value 5); Tick;
                                Message "A" (scenario_value 7); Tick] scenario_node))) =
  [[VStr "col1"]; [VInt 5]; [VInt 7]].
Proof. vm_compute. reflexivity. Qed.

(** Several updates between two ticks: only the last one is sampled. *)
Example scenario_superseded :
  written_rows
    (effects (write_csv (after [Message "A" (scenario_value 1);
                                Message "A" (scenario_value 2);
                                Message "A" (scenario_value 3); Tick] scenario_node))) =
  [[VStr "col1"]; [VInt 3]].
Proof. vm_compute. reflexivity. Qed.

(** Zero ticks before shutdown: nothing is written. *)
Example scenario_no_tick :
  write_csv (after [Message "A" (scenario_value 5)] scenario_node) =
  ([Log INFO [Lit "No data to write to CSV."]], Returned tt).
Proof. vm_compute. reflexivity. Qed.

(** Two fields named ["v"]: the row keeps the value of the second, and both
    columns of the export carry it. *)
Example duplicate_names_row :
  let n := after [Message "/odom" (demo_odom 4); Message "/count" (VMsg [("data", VInt 9)]);
                  Tick] duplicate_node in
  map map_to_list (data n) = [[("v", VInt 9)]] ∧
  written_rows (effects (write_csv n)) = [[VStr "v"; VStr "v"]; [VInt 9; VInt 9]].
Proof. vm_compute. split; reflexivity. Qed.

(** Three ticks with updates in between: the export lists the three rows
    in tick order. *)
Example export_three_ticks :
  written_rows
    (effects (write_csv (after [Message "/odom" (demo_odom 1); Tick;
                                Message "/count" (VMsg [("data", VInt 8)]);
                                Message "/odom" (demo_odom 2); Tick;
                                Message "/odom" (demo_odom 3); Tick] demo_node))) =
  [ [VStr "x"; VStr "pose"; VStr "count"];
    [VInt 1; VMsg [("position", VMsg [("x", VInt 1); ("y", VInt 0)])]; VStr ""];
    [VInt 2; VMsg [("position", VMsg [("x", VInt 2); ("y", VInt 0)])]; VInt 8];
    [VInt 3; VMsg [("position", VMsg [("x", VInt 3); ("y", VInt 0)])]; VInt 8] ].
Proof. vm_compute. reflexivity. Qed.

(** In the row, a miss, a field holding [None] and a field holding the
    empty string all appear as ['']; zero and [False] stay themselves. *)
Example placeholder_in_row :
  let f := {| name := "c"; topic_name := "A"; field_path := "x" |} in
  let holding v := message_callback scenario_node (VMsg [("x", v)]) "A" in
  cell (message_callback scenario_node (VMsg []) "A") f = VStr "" ∧
  cell (holding VNone) f = VStr "" ∧
  cell (holding (VStr "")) f = VStr "" ∧
  cell (holding (VInt 0)) f = VInt 0 ∧
  cell (holding (VBool false)) f = VBool false.
Proof. vm_compute. split_and!; reflexivity. Qed.

(** A built-in attribute of a number resolves like a field. *)
Example extract_builtin :
  get_field_value (VMsg [("data", VInt 0)]) "data.real" = ([], Returned (VInt 0)) ∧
  outcome (get_field_value (VMsg [("data", VInt 7)]) "data.real.real") = Returned (VInt 7).
Proof. vm_compute. split; reflexivity. Qed.

(** An output path that cannot be opened: the export raises and writes
    nothing, and [main] ends there, without [destroy_node] or
    [rclpy.shutdown].  On [/dev/full] the rows are handed to the writer,
    closing the file raises, and the final record is not logged. *)
Example export_unwritable :
  let n := after [Message "/odom" (demo_odom 1); Tick]
             (constructed (__init__ demo_get_message demo_config (1 # 20)
                             "/nonexistent_dir/out.csv")) in
  write_csv n = ([], Raised (OtherError "FileNotFoundError")) ∧
  main demo_get_message demo_config (1 # 20) "/nonexistent_dir/out.csv"
    [Message "/odom" (demo_odom 1); Tick] KeyboardInterrupt =
  ([RclpyInit;
    Node (CreateSubscription (MsgClass "nav_msgs/msg/Odometry") "/odom" 10);
    Node (CreateSubscription (MsgClass "std_msgs/msg/Int32") "/count" 10);
    Node (CreateTimer (1 # 20))],
   Raised (OtherError "FileNotFoundError")) ∧
  write_csv (after [Message "/odom" (demo_odom 1); Tick]
               (constructed (__init__ demo_get_message demo_config (1 # 20) "/dev/full"))) =
  ([OpenForWriting "/dev/full";
    WriteRow [VStr "x"; VStr "pose"; VStr "count"];
    WriteRow [VInt 1; VMsg [("position", VMsg [("x", VInt 1); ("y", VInt 0)])]; VStr ""]],
   Raised (OtherError "OSError")).
Proof. vm_compute. split_and!; reflexivity. Qed.

(** ** Witnesses of the further properties *)

Lemma extraction_composes_witness :
  outcome (get_field_value (demo_odom 4) ("pose.position" +:+ "." +:+ "x")) =
  outcome (get_field_value (VMsg [("x", VInt 4); ("y", VInt 0)]) "x") ∧
  outcome (get_field_value (demo_odom 4) ("pose.velocity" +:+ "." +:+ "x")) =
  Returned VNone.
Proof.
  destruct extraction_composes as [Hresolved Hmissed].
  split.
  - apply Hresolved. vm_compute. reflexivity.
  - apply (Hmissed _ _ _ AttributeError). vm_compute. reflexivity.
Defined.

Lemma startup_trace_witness :
  effects (__init__ demo_get_message demo_config_unresolved (1 # 20) "output.csv") =
  flat_map (startup_effect demo_get_message) demo_config_unresolved
    ++ [CreateTimer (1 # 20)].
Proof.
  apply (startup_trace demo_get_message demo_config_unresolved (1 # 20) "output.csv").
  intros sub Hsub. each_subscription Hsub.
Defined.

Lemma constructed_node_registry_witness :
  dom (latest_messages demo_node) =@{gset string}
    list_to_set (resolved_topics demo_get_message demo_config_unresolved) ∧
  dom (recorded_subscriptions demo_node) =@{gset string} dom (latest_messages demo_node) ∧
  (∀ topic, topic ∈ dom (latest_messages demo_node) →
            latest_messages demo_node !! topic = Some VNone) ∧
  (∀ f, f ∈ fields demo_node → topic_name f ∈ dom (latest_messages demo_node)) ∧
  data demo_node = [] ∧ output_csv demo_node = "output.csv" ∧
  timer demo_node = Some (1 # 20)%Q.
Proof.
  apply (constructed_node_registry demo_get_message demo_config_unresolved).
  vm_compute. reflexivity.
Defined.

Lemma registry_keeps_last_subscription_witness :
  recorded_subscriptions
    (constructed (__init__ demo_get_message repeated_topic_config (1 # 20) "output.csv"))
    !! "/odom" =
  last_registered demo_get_message "/odom" repeated_topic_config.
Proof.
  apply (registry_keeps_last_subscription demo_get_message repeated_topic_config
           (1 # 20) "output.csv").
  vm_compute. reflexivity.
Defined.

Lemma execution_keeps_configuration_witness :
  ∃ es n', run [Message "/odom" (demo_odom 1); Message "/count" (VMsg [("data", VInt 2)])]
               demo_node = (es, Returned n') ∧
           data n' = data demo_node.
Proof.
  destruct (execution_keeps_configuration
              [Message "/odom" (demo_odom 1); Message "/count" (VMsg [("data", VInt 2)])]
              demo_node) as (es & n' & Hrun & _ & _ & _ & _ & Hdata).
  exists es, n'. split; [exact Hrun | apply Hdata; reflexivity].
Defined.

Lemma other_topics_do_not_matter_witness :
  ∃ es es' r r',
    record_data (message_callback demo_node (demo_odom 5) "/odom") =
      (es, Returned (set_data (message_callback demo_node (demo_odom 5) "/odom")
                       (data (message_callback demo_node (demo_odom 5) "/odom") ++ [r]))) ∧
    record_data (message_callback (message_callback demo_node (demo_odom 5) "/odom")
                   (VMsg [("data", VInt 1)]) "/count") =
      (es', Returned (set_data (message_callback
                                  (message_callback demo_node (demo_odom 5) "/odom")
                                  (VMsg [("data", VInt 1)]) "/count")
                        (data (message_callback demo_node (demo_odom 5) "/odom") ++ [r']))) ∧
    r' !! "x" = r !! "x".
Proof.
  apply (other_topics_do_not_matter (message_callback demo_node (demo_odom 5) "/odom")
           "/count" (VMsg [("data", VInt 1)]) "x"
           {| name := "x"; topic_name := "/odom"; field_path := "pose.position.x" |}).
  - vm_compute. reflexivity.
  - discriminate.
Defined.

Lemma update_is_sampled_witness :
  ∃ es r,
    record_data (message_callback demo_node (demo_odom 6) "/odom") =
      (es, Returned (set_data (message_callback demo_node (demo_odom 6) "/odom")
                       (data demo_node ++ [r]))) ∧
    r !! "x" = Some (VInt 6).
Proof.
  apply (update_is_sampled demo_node
           {| name := "x"; topic_name := "/odom"; field_path := "pose.position.x" |}
           (demo_odom 6) (VInt 6)).
  - vm_compute. reflexivity.
  - discriminate.
  - vm_compute. reflexivity.
  - discriminate.
Defined.

Lemma written_rows_have_one_cell_per_field_witness :
  ∃ es n, run [Tick; Message "/odom" (demo_odom 1); Tick] demo_node = (es, Returned n) ∧
          Forall (fun row_cells => length row_cells = length (fields demo_node))
            (written_rows (effects (write_csv n))).
Proof.
  apply (written_rows_have_one_cell_per_field demo_get_message demo_config (1 # 20)
           "output.csv").
  vm_compute. reflexivity.
Defined.


Lemma main_exports_once_witness :
  ∃ n0 n,
    outcome (__init__ demo_get_message demo_config (1 # 20) "output.csv") = Returned n0 ∧
    outcome (run [Message "/odom" (demo_odom 1); Tick] n0) = Returned n ∧
    main demo_get_message demo_config (1 # 20) "output.csv"
      [Message "/odom" (demo_odom 1); Tick] (SpinRaised ValueError) =
    (RclpyInit
       :: map Node (effects (__init__ demo_get_message demo_config (1 # 20) "output.csv")
                    ++ effects (run [Message "/odom" (demo_odom 1); Tick] n0)
                    ++ effects (write_csv n))
       ++ [DestroyNode; RclpyShutdown],
     Raised ValueError).
Proof.
  destruct (main_exports_once demo_get_message demo_config (1 # 20) "output.csv"
              [Message "/odom" (demo_odom 1); Tick] (SpinRaised ValueError))
    as (n0 & n & Hinit & Hrun & Hopens & _).
  - intros sub Hsub. each_subscription Hsub.
  - exists n0, n. split; [exact Hinit|]. split; [exact Hrun|].
    apply Hopens. left. file_is_writable.
Defined.

Lemma main_writes_the_sampled_rows_witness :
  ∃ n0,
    outcome (__init__ demo_get_message demo_config (1 # 20) "output.csv") = Returned n0 ∧
    written_rows
      (node_effects (main demo_get_message demo_config (1 # 20) "output.csv"
                       [Message "/odom" (demo_odom 1); Tick; Tick] KeyboardInterrupt).1) =
    match samples [Message "/odom" (demo_odom 1); Tick; Tick] n0 with
    | [] => []
    | _ :: _ => map VStr (map name (fields n0))
                :: map (cells (map name (fields n0)))
                     (samples [Message "/odom" (demo_odom 1); Tick; Tick] n0)
    end.
Proof.
  destruct (main_writes_the_sampled_rows demo_get_message demo_config (1 # 20)
              "output.csv" [Message "/odom" (demo_odom 1); Tick; Tick] KeyboardInterrupt)
    as (n0 & Hinit & Hopens & _).
  - intros sub Hsub. each_subscription Hsub.
  - exists n0. split; [exact Hinit|]. apply Hopens. file_is_writable.
Defined.

Lemma main_startup_failure_witness :
  main raising_get_message demo_config_unresolved (1 # 20) "output.csv"
    [Message "/odom" (demo_odom 1); Tick] KeyboardInterrupt =
  ([RclpyInit; Node (CreateSubscription (MsgClass "nav_msgs/msg/Odometry") "/odom" 10)],
   Raised (OtherError "ModuleNotFoundError")).
Proof.
  apply (main_startup_failure raising_get_message
           [ {| cfg_topic_name := "/odom"; cfg_message_type := "nav_msgs/msg/Odometry";
                cfg_fields := [ {| cfg_name := "x"; cfg_field_path := "pose.position.x" |};
                                {| cfg_name := "pose"; cfg_field_path := "pose" |} ] |} ]
           {| cfg_topic_name := "/imu"; cfg_message_type := "sensor_msgs/msg/Imuu";
              cfg_fields := [ {| cfg_name := "ax";
                                 cfg_field_path := "linear_acceleration.x" |} ] |}
           [ {| cfg_topic_name := "/count"; cfg_message_type := "std_msgs/msg/Int32";
                cfg_fields := [ {| cfg_name := "count"; cfg_field_path := "data" |} ] |} ]
           (1 # 20) "output.csv" [Message "/odom" (demo_odom 1); Tick] KeyboardInterrupt
           (OtherError "ModuleNotFoundError")).
  - intros b Hb. each_subscription Hb.
  - vm_compute. reflexivity.
Defined.
